(** * gdt-kube: assertion evaluator, structural comparator and poll loop

    A shallow embedding of the Go code of the [kube] package:

    - the structural comparator ([matchObjectFromAny],
      [compareResourceToMatchObject], [collectFieldDifferences],
      [typesComparable], [toInt64], [toUint64]);
    - the assertion evaluator ([assertions] with [OK], [errorOK],
      [expectsNotFound], [lenOK], [matchesOK], [jsonOK], [hasSubject]);
    - the retry loop of [runGet].

    Go's [interface{}] documents are a tagged variant [value]; Go maps with
    string keys are [gmap string value].  A Go panic is the [None] of the
    option monad.  Code outside the package (the YAML decoder, the file
    reader, [json.Marshal], the gdt-core JSON assertion engine) is a field
    of the record [External], which the evaluator takes as an argument. *)

From Stdlib Require Import ZArith Bool Ascii String Floats.SpecFloat.
From stdpp Require Import base tactics option list strings gmap pretty.

#[local] Set Warnings "-register-all".
#[local] Open Scope Z_scope.
#[local] Arguments Z.eqb : simpl never.

(** ** Go values held in an [interface{}] *)

(** The dynamic types a decoded YAML or JSON document can hold.  The sized
    kinds keep their Go type, because [typesComparable], the type switches
    and [reflect.DeepEqual] all look at it. *)
Inductive int_kind := KInt | KInt8 | KInt16 | KInt32 | KInt64.
Inductive uint_kind := KUint | KUint8 | KUint16 | KUint32 | KUint64.
Inductive float_kind := KFloat32 | KFloat64.
Inductive complex_kind := KComplex64 | KComplex128.

#[global] Instance int_kind_eq_dec : EqDecision int_kind.
Proof. solve_decision. Defined.
#[global] Instance uint_kind_eq_dec : EqDecision uint_kind.
Proof. solve_decision. Defined.
#[global] Instance float_kind_eq_dec : EqDecision float_kind.
Proof. solve_decision. Defined.
#[global] Instance complex_kind_eq_dec : EqDecision complex_kind.
Proof. solve_decision. Defined.

(** [VNil] is the nil interface; [VMap] is [map[string]interface{}];
    [VList] is [[]interface{}].  Integers carry their mathematical value
    (in the range of their kind), floats an IEEE 754 datum. *)
Inductive value :=
| VNil
| VBool (b : bool)
| VInt (k : int_kind) (n : Z)
| VUint (k : uint_kind) (n : Z)
| VFloat (k : float_kind) (f : spec_float)
| VComplex (k : complex_kind) (re im : spec_float)
| VString (s : string)
| VMap (m : gmap string value)
| VList (l : list value).

(** [reflect.Kind] of a value; [Invalid] is the kind of the nil interface. *)
Inductive Kind :=
| Invalid | Bool | Int (k : int_kind) | Uint (k : uint_kind)
| Float (k : float_kind) | Complex (k : complex_kind)
| String_ | Map | Slice.

#[global] Instance Kind_eq_dec : EqDecision Kind.
Proof. solve_decision. Defined.

Definition kindOf (v : value) : Kind :=
  match v with
  | VNil => Invalid
  | VBool _ => Bool
  | VInt k _ => Int k
  | VUint k _ => Uint k
  | VFloat k _ => Float k
  | VComplex k _ _ => Complex k
  | VString _ => String_
  | VMap _ => Map
  | VList _ => Slice
  end.

(** ** strconv *)

Definition minInt64 : Z := - 2 ^ 63.
Definition maxInt64 : Z := 2 ^ 63 - 1.

Definition digitOf (c : ascii) : option Z :=
  let n := Z.of_N (N_of_ascii c) in
  if (48 <=? n) && (n <=? 57) then Some (n - 48) else None.

Fixpoint parseDigits (s : string) (acc : Z) : option Z :=
  match s with
  | EmptyString => Some acc
  | String c s' =>
      match digitOf c with
      | Some d => parseDigits s' (acc * 10 + d)
      | None => None
      end
  end.

(** [strconv.Atoi] where [int] has 64 bits: an optional sign, then one or
    more decimal digits, and the value within the range of int64.  [None]
    is a non-nil error (syntax or range). *)
Definition Atoi (s : string) : option Z :=
  match s with
  | EmptyString => None
  | String c rest =>
      let neg := bool_decide (c = "-"%char) in
      let digits := if neg || bool_decide (c = "+"%char) then rest else s in
      match digits with
      | EmptyString => None
      | _ =>
          match parseDigits digits 0 with
          | Some n =>
              let v := if neg then - n else n in
              if (minInt64 <=? v) && (v <=? maxInt64) then Some v else None
          | None => None
          end
      end
  end.

(** [strconv.Itoa]: the decimal rendering, with a leading minus sign for a
    negative number. *)
Definition Itoa (n : Z) : string := pretty n.

(** [strings.Contains]. *)
Fixpoint Contains (s substr : string) : bool :=
  String.prefix substr s ||
  match s with
  | EmptyString => false
  | String _ s' => Contains s' substr
  end.

(** ** Structural comparator *)

(** One entry of a [delta].  The Go code formats each entry into a string
    with [fmt.Sprintf]; an entry here keeps the format and its arguments:
    - [NonComparable fp m s]: "%s non-comparable types: %T and %T."
    - [NotPresent fp]: "%s not present in subject"
    - [DifferentLengths fp e f]: "%s had different lengths. expected %d
      but found %d"
    - [DifferentValues fp m s]: "%s had different values. expected %v but
      found %v" *)
Inductive difference :=
| NonComparable (fp : string) (m s : value)
| NotPresent (fp : string)
| DifferentLengths (fp : string) (expected found : nat)
| DifferentValues (fp : string) (m s : value).

Definition delta := list difference.

Definition Add (d : delta) (diff : difference) : delta := d ++ [diff].
Definition Empty (d : delta) : bool := bool_decide (length d = 0%nat).
Definition Differences (d : delta) : list difference := d.

(** The sized kinds listed by [typesComparable]: Int16 and Uint16 are not
    among them. *)
Definition intListed (k : int_kind) : bool :=
  match k with KInt | KInt8 | KInt32 | KInt64 => true | KInt16 => false end.
Definition uintListed (k : uint_kind) : bool :=
  match k with KUint | KUint8 | KUint32 | KUint64 => true | KUint16 => false end.

(** In this document model every kind has one type, so the final
    [reflect.TypeOf(a) == reflect.TypeOf(b)] is equality of kinds. *)
Definition typesComparable (a b : value) : bool :=
  let at_ := kindOf a in
  let bt := kindOf b in
  match at_ with
  | Int KInt | Int KInt8 | Int KInt32 | Int KInt64 =>
      match bt with
      | Int k => intListed k
      | String_ => true
      | _ => false
      end
  | Uint KUint | Uint KUint8 | Uint KUint32 | Uint KUint64 =>
      match bt with
      | Uint k => uintListed k
      | String_ => true
      | _ => false
      end
  | Complex _ =>
      match bt with
      | Complex _ | String_ => true
      | _ => false
      end
  | String_ =>
      match bt with
      | Int k => intListed k
      | Uint k => uintListed k
      | Complex _ | String_ => true
      | _ => false
      end
  | _ => bool_decide (at_ = bt)
  end.

Definition toUint64 (v : value) : Z :=
  match v with
  | VUint _ n => n
  | _ => 0
  end.

Definition toInt64 (v : value) : Z :=
  match v with
  | VInt _ n => n
  | _ => 0
  end.

(** [reflect.DeepEqual] on two documents: equal dynamic types and equal
    contents, floats compared with [==] (a NaN differs from itself).  Maps
    and slices never reach it from [collectFieldDifferences]; for them the
    distinction between nil and empty, and the shortcut for one and the
    same map object, are not modelled. *)
Fixpoint deepEqual (a b : value) {struct a} : bool :=
  match a, b with
  | VNil, VNil => true
  | VBool x, VBool y => bool_decide (x = y)
  | VInt k x, VInt k' y => bool_decide (k = k') && (x =? y)
  | VUint k x, VUint k' y => bool_decide (k = k') && (x =? y)
  | VFloat k x, VFloat k' y => bool_decide (k = k') && SFeqb x y
  | VComplex k x1 x2, VComplex k' y1 y2 =>
      bool_decide (k = k') && SFeqb x1 y1 && SFeqb x2 y2
  | VString x, VString y => bool_decide (x = y)
  | VMap x, VMap y =>
      bool_decide (size x = size y) &&
      map_fold (fun k v acc =>
                  acc && match y !! k with
                         | Some w => deepEqual v w
                         | None => false
                         end) true x
  | VList x, VList y =>
      (fix go (x y : list value) {struct x} : bool :=
         match x, y with
         | [], [] => true
         | v :: x', w :: y' => deepEqual v w && go x' y'
         | _, _ => false
         end) x y
  | _, _ => false
  end.

(** [collectFieldDifferences fp match subject delta]; the result is the
    delta after the call, [None] when the call panics (the unchecked type
    assertion [subject.(int)]). *)
Fixpoint collectFieldDifferences (fp : string) (match_ subject : value)
    (d : delta) {struct match_} : option delta :=
  if negb (typesComparable match_ subject) then
    Some (Add d (NonComparable fp match_ subject))
  else
    match match_ with
    | VMap matchmap =>
        match subject with
        | VMap subjectmap =>
            map_fold
              (fun matchk matchv acc =>
                 match acc with
                 | None => None
                 | Some d' =>
                     let newfp := fp +:+ "." +:+ matchk in
                     match subjectmap !! matchk with
                     | None => Some (Add d' (NotPresent newfp))
                     | Some subjectv =>
                         collectFieldDifferences newfp matchv subjectv d'
                     end
                 end) (Some d) matchmap
        | _ => None
        end
    | VList matchlist =>
        match subject with
        | VList subjectlist =>
            if negb (bool_decide (length matchlist = length subjectlist)) then
              Some (Add d (DifferentLengths fp (length matchlist)
                             (length subjectlist)))
            else
              (fix go (x : nat) (ml sl : list value) (d : delta)
                   {struct ml} : option delta :=
                 match ml with
                 | [] => Some d
                 | matchv :: ml' =>
                     match sl with
                     | [] => None
                     | subjectv :: sl' =>
                         let newfp := fp +:+ "[" +:+ pretty x +:+ "]" in
                         match collectFieldDifferences newfp matchv subjectv d with
                         | Some d' => go (S x) ml' sl' d'
                         | None => None
                         end
                     end
                 end) 0%nat matchlist subjectlist d
        | _ => None
        end
    | VInt _ _ =>
        match subject with
        | VInt _ _ =>
            let mv := toInt64 match_ in
            let sv := toInt64 subject in
            if negb (mv =? sv) then
              Some (Add d (DifferentValues fp match_ subject))
            else Some d
        | VUint _ _ =>
            let mv := toUint64 match_ in
            let sv := toUint64 subject in
            if negb (mv =? sv) then
              Some (Add d (DifferentValues fp match_ subject))
            else Some d
        | VString ss =>
            let mv := toInt64 match_ in
            match Atoi ss with
            | None => Some (Add d (DifferentValues fp match_ subject))
            | Some sv =>
                if negb (mv =? sv) then
                  Some (Add d (DifferentValues fp match_ subject))
                else Some d
            end
        | _ => Some d
        end
    | VString mv =>
        match subject with
        | VInt KInt si =>
            let sv := Itoa si in
            if negb (bool_decide (mv = sv)) then
              Some (Add d (DifferentValues fp match_ subject))
            else Some d
        | VInt _ _ | VUint _ _ => None
        | VString sv =>
            if negb (bool_decide (mv = sv)) then
              Some (Add d (DifferentValues fp match_ subject))
            else Some d
        | _ => Some d
        end
    | _ =>
        if negb (deepEqual match_ subject) then
          Some (Add d (DifferentValues fp match_ subject))
        else Some d
    end.

(** [unstructured.Unstructured] and [unstructured.UnstructuredList]. *)
Record Unstructured := { Object : gmap string value }.
Record UnstructuredList := { Items : list Unstructured }.

Definition compareResourceToMatchObject (res : Unstructured)
    (match_ : gmap string value) : option delta :=
  collectFieldDifferences "$" (VMap match_) (VMap (Object res)) [].

(** [math.IsNaN]. *)
Definition isNaN (f : spec_float) : bool :=
  match f with S754_nan => true | _ => false end.

(** A document that holds no NaN, at any depth. *)
Fixpoint nanFree (v : value) : bool :=
  match v with
  | VFloat _ f => negb (isNaN f)
  | VComplex _ re im => negb (isNaN re) && negb (isNaN im)
  | VMap m => map_fold (fun _ w acc => acc && nanFree w) true m
  | VList l => forallb nanFree l
  | _ => true
  end.

(** The number of nodes of a document. *)
Fixpoint vsize (v : value) : nat :=
  match v with
  | VMap m => S (map_fold (fun _ w acc => vsize w + acc)%nat 0%nat m)
  | VList l => S (foldr (fun w acc => vsize w + acc)%nat 0%nat l)
  | _ => 1%nat
  end.

(** A document that holds no string, at any depth; and a document whose
    integers all have the Go type [int]. *)
Fixpoint stringFree (v : value) : bool :=
  match v with
  | VString _ => false
  | VMap m => map_fold (fun _ w acc => acc && stringFree w) true m
  | VList l => forallb stringFree l
  | _ => true
  end.

Fixpoint goIntOnly (v : value) : bool :=
  match v with
  | VInt k _ => bool_decide (k = KInt)
  | VUint _ _ => false
  | VMap m => map_fold (fun _ w acc => acc && goIntOnly w) true m
  | VList l => forallb goIntOnly l
  | _ => true
  end.

(** *** Runs of the comparator *)

(** The loop over the elements of a sequence in
    [collectFieldDifferences], from index [x] on. *)
Definition collectElements (fp : string)
    : nat -> list value -> list value -> delta -> option delta :=
  fix go (x : nat) (ml sl : list value) (d : delta) {struct ml}
      : option delta :=
    match ml with
    | [] => Some d
    | matchv :: ml' =>
        match sl with
        | [] => None
        | subjectv :: sl' =>
            let newfp := fp +:+ "[" +:+ pretty x +:+ "]" in
            match collectFieldDifferences newfp matchv subjectv d with
            | Some d' => go (S x) ml' sl' d'
            | None => None
            end
        end
    end.

(** The body of the loop over the keys of an expected mapping. *)
Definition collectKey (fp : string) (subjectmap : gmap string value)
    (matchk : string) (matchv : value) (acc : option delta)
    : option delta :=
  match acc with
  | None => None
  | Some d' =>
      let newfp := fp +:+ "." +:+ matchk in
      match subjectmap !! matchk with
      | None => Some (Add d' (NotPresent newfp))
      | Some subjectv => collectFieldDifferences newfp matchv subjectv d'
      end
  end.

Definition composite (v : value) : bool :=
  match v with VMap _ | VList _ => true | _ => false end.

(** [collectFieldDifferences] above visits the keys of an expected
    mapping in one fixed order.  Go's [range matchmap] fixes none, and
    the order may differ from one call to the next.  [collects fp m s d r]
    is a run of [collectFieldDifferences(fp, m, s, delta)] on the delta
    [d] that visits the keys of every expected mapping in some order and
    leaves the delta [r]; [None] is a panic, which ends the run.  The
    elements of a sequence are visited by index; a scalar is compared as
    above. *)
Inductive collects
    : string -> value -> value -> delta -> option delta -> Prop :=
| collects_noncomparable (fp : string) (m s : value) (d : delta) :
    typesComparable m s = false ->
    collects fp m s d (Some (Add d (NonComparable fp m s)))
| collects_scalar (fp : string) (m s : value) (d : delta) :
    typesComparable m s = true -> composite m = false ->
    collects fp m s d (collectFieldDifferences fp m s d)
| collects_map (fp : string) (mm sm : gmap string value) (d : delta)
    (order : list (string * value)) (r : option delta) :
    order ≡ₚ map_to_list mm ->
    collectsKeys fp sm order d r ->
    collects fp (VMap mm) (VMap sm) d r
| collects_lengths (fp : string) (ml sl : list value) (d : delta) :
    length ml <> length sl ->
    collects fp (VList ml) (VList sl) d
      (Some (Add d (DifferentLengths fp (length ml) (length sl))))
| collects_list (fp : string) (ml sl : list value) (d : delta)
    (r : option delta) :
    length ml = length sl ->
    collectsElements fp 0 ml sl d r ->
    collects fp (VList ml) (VList sl) d r
with collectsKeys
    : string -> gmap string value -> list (string * value) -> delta ->
      option delta -> Prop :=
| keys_done (fp : string) (sm : gmap string value) (d : delta) :
    collectsKeys fp sm [] d (Some d)
| keys_missing (fp : string) (sm : gmap string value) (k : string)
    (v : value) (order : list (string * value)) (d : delta)
    (r : option delta) :
    sm !! k = None ->
    collectsKeys fp sm order (Add d (NotPresent (fp +:+ "." +:+ k))) r ->
    collectsKeys fp sm ((k, v) :: order) d r
| keys_present (fp : string) (sm : gmap string value) (k : string)
    (v sv : value) (order : list (string * value)) (d d1 : delta)
    (r : option delta) :
    sm !! k = Some sv ->
    collects (fp +:+ "." +:+ k) v sv d (Some d1) ->
    collectsKeys fp sm order d1 r ->
    collectsKeys fp sm ((k, v) :: order) d r
| keys_panic (fp : string) (sm : gmap string value) (k : string)
    (v sv : value) (order : list (string * value)) (d : delta) :
    sm !! k = Some sv ->
    collects (fp +:+ "." +:+ k) v sv d None ->
    collectsKeys fp sm ((k, v) :: order) d None
with collectsElements
    : string -> nat -> list value -> list value -> delta ->
      option delta -> Prop :=
| elements_done (fp : string) (x : nat) (sl : list value) (d : delta) :
    collectsElements fp x [] sl d (Some d)
| elements_next (fp : string) (x : nat) (v sv : value)
    (ml sl : list value) (d d1 : delta) (r : option delta) :
    collects (fp +:+ "[" +:+ pretty x +:+ "]") v sv d (Some d1) ->
    collectsElements fp (S x) ml sl d1 r ->
    collectsElements fp x (v :: ml) (sv :: sl) d r
| elements_panic (fp : string) (x : nat) (v sv : value)
    (ml sl : list value) (d : delta) :
    collects (fp +:+ "[" +:+ pretty x +:+ "]") v sv d None ->
    collectsElements fp x (v :: ml) (sv :: sl) d None.

(** A run of [compareResourceToMatchObject]. *)
Definition compares (res : Unstructured) (match_ : gmap string value)
    (r : option delta) : Prop :=
  collects "$" (VMap match_) (VMap (Object res)) [] r.

(** A run from the delta [d] that ends as [r] has added what [c] holds,
    in some order, or has panicked as [c] has. *)
Definition addedUpToOrder (d : delta) (r c : option delta) : Prop :=
  match r, c with
  | Some d', Some ds0 => exists ds, d' = d ++ ds /\ ds ≡ₚ ds0
  | None, None => True
  | _, _ => False
  end.

(** A document without unsigned integers, complex numbers and int16;
    a resource decoded from the API server's JSON is one. *)
Fixpoint plain (v : value) : bool :=
  match v with
  | VInt k _ => negb (bool_decide (k = KInt16))
  | VUint _ _ | VComplex _ _ _ => false
  | VMap m => map_fold (fun _ w acc => acc && plain w) true m
  | VList l => forallb plain l
  | _ => true
  end.

(** When an expected document is found in an actual one.  Every expected
    key is in the actual mapping, with the expected value found in the
    actual one; other keys of the actual mapping are free.  Sequences
    have the same length and correspond element by element.  Scalars are
    equal: nil, booleans and strings as they are, integers as numbers
    whatever their widths, floats of one width as numbers.  An expected
    integer is also found in a string that parses to it, and an expected
    string in the integer whose decimal rendering it is. *)
Inductive included : value -> value -> Prop :=
| inc_nil : included VNil VNil
| inc_bool (b : bool) : included (VBool b) (VBool b)
| inc_string (s : string) : included (VString s) (VString s)
| inc_int (k k' : int_kind) (n : Z) : included (VInt k n) (VInt k' n)
| inc_float (k : float_kind) (f f' : spec_float) :
    SFeqb f f' = true -> included (VFloat k f) (VFloat k f')
| inc_int_string (k : int_kind) (n : Z) (s : string) :
    Atoi s = Some n -> included (VInt k n) (VString s)
| inc_string_int (k : int_kind) (n : Z) :
    included (VString (Itoa n)) (VInt k n)
| inc_map (mm sm : gmap string value) :
    (forall k mv, mm !! k = Some mv ->
                  exists sv, sm !! k = Some sv /\ included mv sv) ->
    included (VMap mm) (VMap sm)
| inc_list (ml sl : list value) :
    Forall2 included ml sl -> included (VList ml) (VList sl).

(** ** Resource specifiers and manifests *)

(** [strings.Cut] with a separator of one byte: the text before the first
    separator, the text after it, and whether there is one. *)
Fixpoint Cut (s : string) (sep : ascii) : string * string * bool :=
  match s with
  | EmptyString => (EmptyString, EmptyString, false)
  | String c s' =>
      if bool_decide (c = sep) then (EmptyString, s', true)
      else
        let '(before, after, found) := Cut s' sep in
        (String c before, after, found)
  end.

Definition splitKindName (subject : string) : string * string :=
  let '(kind, name, _) := Cut subject "/"%char in
  (kind, name).

(** What [yr.Read()] hands back before [io.EOF]: a document or an error. *)
Inductive readResult :=
| ReadDoc (raw : string)
| ReadErr.

(** [unstructuredFromReader]: [reads] is what the YAML reader yields up to
    [io.EOF]; [expand] is [parse.ExpandWithFixedDoubleDollar], [decode]
    the YAML-or-JSON decoder and [GetKind] the library's
    [obj.GetObjectKind().GroupVersionKind().Kind].  [None] is the return
    of [nil, err]. *)
Fixpoint unstructuredFromReader (expand : string -> string)
    (decode : string -> option Unstructured)
    (GetKind : Unstructured -> string) (reads : list readResult)
    : option (list Unstructured) :=
  match reads with
  | [] => Some []
  | ReadErr :: _ => None
  | ReadDoc raw :: reads' =>
      let data := expand raw in
      match decode data with
      | None => None
      | Some obj =>
          match unstructuredFromReader expand decode GetKind reads' with
          | None => None
          | Some objs =>
              Some (if negb (bool_decide (GetKind obj = EmptyString))
                    then obj :: objs else objs)
          end
      end
  end.

(** ** Assertion evaluator *)

(** The errors an action can return, by what [errorOK] can observe of them:
    [errors.Is(err, ErrResourceUnknown)], the type assertion to
    [*apierrors.StatusError] with its [ErrStatus.Code], and [Error()]. *)
Inductive error :=
| ResourceUnknown (msg : string)
| StatusError (code : Z) (msg : string)
| OtherError (msg : string).

Definition errorString (e : error) : string :=
  match e with
  | ResourceUnknown msg | StatusError _ msg | OtherError msg => msg
  end.

Definition isResourceUnknown (e : error) : bool :=
  match e with ResourceUnknown _ => true | _ => false end.

Definition StatusNotFound : Z := 404.

(** The field [r]: a nil interface, or a pointer (possibly a nil pointer)
    to an [Unstructured] or to an [UnstructuredList].  An interface that
    holds a nil pointer is itself not nil. *)
Inductive response :=
| RNil
| RUnstructured (p : option Unstructured)
| RUnstructuredList (p : option UnstructuredList).

Definition isNilResponse (x : response) : bool :=
  match x with RNil => true | _ => false end.

(** The descriptor handed to the gdt-core JSON assertion engine, and what
    the engine answers once its [OK] has run. *)
Inductive JSONExpect := MkJSONExpect (descriptor : value).
Record jsonAssertions :=
  { jaOK : bool; jaTerminal : bool; jaFailures : list string }.

Record Expect :=
  { Error : string;
    Len : option Z;
    NotFound : bool;
    Unknown : bool;
    Matches : value;
    JSON : option JSONExpect }.

(** The entries of [failures], by the constructor that builds them:
    [gdterrors.UnexpectedError], the raw error, [ExpectedNotFound],
    [gdterrors.NotIn], [gdterrors.NotEqualLength], [MatchesNotEqual], and a
    failure handed over by the JSON engine. *)
Inductive failure :=
| FUnexpectedError (e : option error)
| FError (e : error)
| FExpectedNotFound (msg : string)
| FNotIn (element container : string)
| FNotEqualLength (expected got : Z)
| FMatchesNotEqual (diff : difference)
| FJSON (msg : string).

Record assertions :=
  { failures : list failure;
    terminal : bool;
    exp : option Expect;
    err : option error;
    r : response }.

Definition Fail (a : assertions) (f : failure) : assertions :=
  {| failures := failures a ++ [f]; terminal := terminal a;
     exp := exp a; err := err a; r := r a |}.

Definition setTerminal (a : assertions) (t : bool) : assertions :=
  {| failures := failures a; terminal := t;
     exp := exp a; err := err a; r := r a |}.

Definition setErr (a : assertions) (e : option error) : assertions :=
  {| failures := failures a; terminal := terminal a;
     exp := exp a; err := e; r := r a |}.

Definition Failures (a : assertions) : list failure := failures a.
Definition Terminal (a : assertions) : bool := terminal a.

Definition newAssertions (e : option Expect) (er : option error)
    (x : response) : assertions :=
  {| failures := []; terminal := false; exp := e; err := er; r := x |}.

(** The methods below run after [OK] has found [a.exp] non-nil; they take
    the [Expect] it points to as [e]. *)
Definition expectsNotFound (e : Expect) : bool :=
  match Len e with
  | Some n => n =? 0
  | None => false
  end || NotFound e.

Definition hasSubject (a : assertions) : bool :=
  match r a with
  | RUnstructured v => bool_decide (is_Some v)
  | RUnstructuredList v => bool_decide (is_Some v)
  | RNil => false
  end.

(** Control flow of a method body with early returns: [Return b a] has
    left the method with result [b], [Next a] goes on to the statement
    that follows. *)
Inductive flow :=
| Return (b : bool) (a : assertions)
| Next (a : assertions).

Definition andThen (f : flow) (k : assertions -> flow) : flow :=
  match f with
  | Return b a => Return b a
  | Next a => k a
  end.

Notation "f >>> k" := (andThen f k) (at level 61, left associativity).

Definition finish (f : flow) : bool * assertions :=
  match f with
  | Return b a => (b, a)
  | Next a => (true, a)
  end.

(** [errorOK], first statement: the unknown-resource error. *)
Definition swallowUnknown (e : Expect) (a : assertions) : flow :=
  match err a with
  | Some er =>
      if isResourceUnknown er then
        if negb (Unknown e) then
          Return false (setTerminal (Fail a (FError er)) true)
        else Next (setErr a None)
      else Next a
  | None => Next a
  end.

(** [errorOK], second statement: the status error. *)
Definition swallowStatus (e : Expect) (a : assertions) : flow :=
  match err a with
  | Some (StatusError code _) =>
      if negb (expectsNotFound e) then
        if negb (StatusNotFound =? code) then
          Return false
            (Fail a (FExpectedNotFound ("got status code " +:+ pretty code)))
        else Next (setErr a None)
      else Next (setErr a None)
  | _ => Next a
  end.

(** [errorOK], third statement: the expected error string. *)
Definition expectedError (e : Expect) (a : assertions) : flow :=
  if negb (bool_decide (Error e = "")) && negb (isNilResponse (r a)) then
    match err a with
    | None => Return false (setTerminal (Fail a (FUnexpectedError None)) true)
    | Some er =>
        if negb (Contains (errorString er) (Error e)) then
          Return false (Fail a (FNotIn (errorString er) (Error e)))
        else Next a
    end
  else Next a.

(** [errorOK], last statement: an error that is still there. *)
Definition remainingError (a : assertions) : flow :=
  match err a with
  | Some er =>
      Return false (setTerminal (Fail a (FUnexpectedError (Some er))) true)
  | None => Return true a
  end.

Definition errorOK (e : Expect) (a : assertions) : bool * assertions :=
  finish (swallowUnknown e a >>> swallowStatus e >>> expectedError e
            >>> remainingError).

Definition lenOK (e : Expect) (a : assertions) : bool * assertions :=
  match Len e with
  | Some n =>
      match r a with
      | RUnstructuredList (Some list) =>
          let got := Z.of_nat (length (Items list)) in
          if negb (got =? n) then (false, Fail a (FNotEqualLength n got))
          else (true, a)
      | _ => (true, a)
      end
  | None => (true, a)
  end.

Definition isNil (v : value) : bool :=
  match v with VNil => true | _ => false end.

(** [notFoundOK], which no other method calls.  [None] is the panic of
    [list.Items] on a nil list pointer. *)
Definition notFoundOK (e : Expect) (a : assertions)
    : option (bool * assertions) :=
  if expectsNotFound e then
    match err a with
    | Some (StatusError code _) =>
        if negb (StatusNotFound =? code) then
          Some (false,
                Fail a (FExpectedNotFound
                          ("got status code " +:+ pretty code)))
        else Some (true, a)
    | _ =>
        match r a with
        | RUnstructuredList (Some list) =>
            if negb (bool_decide (length (Items list) = 0%nat)) then
              Some (false,
                    Fail a (FExpectedNotFound
                              ("got " +:+ pretty (length (Items list))
                                 +:+ " items")))
            else Some (true, a)
        | RUnstructuredList None => None
        | _ => Some (true, a)
        end
    end
  else Some (true, a).

(** The check that records a failure. *)
Inductive checkId := ByError | ByLen | ByMatches | ByJSON.

Definition failureCheck (f : failure) : checkId :=
  match f with
  | FUnexpectedError _ | FError _ | FExpectedNotFound _ | FNotIn _ _ =>
      ByError
  | FNotEqualLength _ _ => ByLen
  | FMatchesNotEqual _ => ByMatches
  | FJSON _ => ByJSON
  end.

(** What a caller reads off an evaluation: the result of [OK], then
    [Failures] and [Terminal]. *)
Definition verdict (res : option (bool * assertions))
    : option (bool * list failure * bool) :=
  match res with
  | Some (ok, a) => Some (ok, Failures a, Terminal a)
  | None => None
  end.

(** An expectation with its [len] and [notfound] replaced. *)
Definition withAbsence (e : Expect) (n : option Z) (nf : bool) : Expect :=
  {| Error := Error e; Len := n; NotFound := nf; Unknown := Unknown e;
     Matches := Matches e; JSON := JSON e |}.

(** Expectations as a test file declares them: nothing, [notfound: true],
    [error: s], [len: n], [len: n] with [error: s], [json] only, and
    [matches] with a mapping. *)
Definition declareNothing : Expect :=
  {| Error := ""; Len := None; NotFound := false; Unknown := false;
     Matches := VNil; JSON := None |}.
Definition declareNotFound : Expect :=
  {| Error := ""; Len := None; NotFound := true; Unknown := false;
     Matches := VNil; JSON := None |}.
Definition declareUnknown : Expect :=
  {| Error := ""; Len := None; NotFound := false; Unknown := true;
     Matches := VNil; JSON := None |}.
Definition declareError (s : string) : Expect :=
  {| Error := s; Len := None; NotFound := false; Unknown := false;
     Matches := VNil; JSON := None |}.
Definition declareLen (n : Z) : Expect :=
  {| Error := ""; Len := Some n; NotFound := false; Unknown := false;
     Matches := VNil; JSON := None |}.
Definition declareLenError (n : Z) (s : string) : Expect :=
  {| Error := s; Len := Some n; NotFound := false; Unknown := false;
     Matches := VNil; JSON := None |}.
Definition declareJSON (j : JSONExpect) : Expect :=
  {| Error := ""; Len := None; NotFound := false; Unknown := false;
     Matches := VNil; JSON := Some j |}.
Definition declareMatches (m : gmap string value) : Expect :=
  {| Error := ""; Len := None; NotFound := false; Unknown := false;
     Matches := VMap m; JSON := None |}.

(** A resource with the given fields, and a list of [n] empty resources. *)
Definition resource (m : gmap string value) : Unstructured :=
  {| Object := m |}.
Definition listOf (n : nat) : UnstructuredList :=
  {| Items := replicate n (resource ∅) |}.

(** Code outside [src/]: [probablyFilePath] of this package, and the
    libraries [ioutil.ReadFile], [yaml.Unmarshal] into a
    [map[string]interface{}], [json.Marshal] and [gdtjson.New] followed by
    its [OK].  [None] is a non-nil error. *)
Record External :=
  { probablyFilePath : string -> bool;
    ReadFile : string -> option string;
    yamlUnmarshal : string -> option (gmap string value);
    jsonMarshal : Unstructured -> option string;
    jsonNew : JSONExpect -> option string -> jsonAssertions }.

(** Stand-ins for the code outside the package, for closed examples: no
    string is a file path, no file can be read, the decoder yields an empty
    mapping, the encoder an empty object, and three engines: one that
    passes, one that fails and lets the attempt be retried, one that fails
    and sets its terminal flag. *)
Definition inlineOnly : string -> bool := fun _ => false.
Definition noFile : string -> option string := fun _ => None.
Definition emptyYAML : string -> option (gmap string value) :=
  fun _ => Some ∅.
Definition marshalEmpty : Unstructured -> option string :=
  fun _ => Some "{}"%string.
Definition passingEngine : JSONExpect -> option string -> jsonAssertions :=
  fun _ _ => {| jaOK := true; jaTerminal := false; jaFailures := [] |}.
Definition failingEngine : JSONExpect -> option string -> jsonAssertions :=
  fun _ _ =>
    {| jaOK := false; jaTerminal := false;
       jaFailures := ["path not found"%string] |}.

Definition terminalEngine : JSONExpect -> option string -> jsonAssertions :=
  fun _ _ =>
    {| jaOK := false; jaTerminal := true;
       jaFailures := ["schema not found"%string] |}.

Definition silentEngine : JSONExpect -> option string -> jsonAssertions :=
  fun _ _ => {| jaOK := false; jaTerminal := false; jaFailures := [] |}.

Definition standIns
    (engine : JSONExpect -> option string -> jsonAssertions) : External :=
  {| probablyFilePath := inlineOnly; ReadFile := noFile;
     yamlUnmarshal := emptyYAML; jsonMarshal := marshalEmpty;
     jsonNew := engine |}.

Section Evaluator.

Variable ext : External.

Definition matchObjectFromAny (m : value) : option (gmap string value) :=
  match m with
  | VString v =>
      match (if probablyFilePath ext v then ReadFile ext v else Some v) with
      | Some b => yamlUnmarshal ext b
      | None => None
      end
  | VMap mm => Some mm
  | _ => Some ∅
  end.

Definition matchesOK (e : Expect) (a : assertions)
    : option (bool * assertions) :=
  if negb (isNil (Matches e)) && hasSubject a then
    match matchObjectFromAny (Matches e) with
    | None => None
    | Some matchObj =>
        match r a with
        | RUnstructured (Some res) =>
            match compareResourceToMatchObject res matchObj with
            | None => None
            | Some delta =>
                if negb (Empty delta) then
                  Some (false,
                        foldl Fail a
                          (FMatchesNotEqual <$> Differences delta))
                else Some (true, a)
            end
        | RUnstructured None => None
        | _ => Some (true, a)
        end
    end
  else Some (true, a).

Definition jsonOK (e : Expect) (a : assertions)
    : option (bool * assertions) :=
  match JSON e with
  | Some j =>
      if hasSubject a then
        match (match r a with
               | RUnstructured (Some res) =>
                   match jsonMarshal ext res with
                   | Some b => Some (Some b)
                   | None => None
                   end
               | _ => Some None
               end) with
        | None => None
        | Some b =>
            let ja := jsonNew ext j b in
            if negb (jaOK ja) then
              let a := setTerminal a (jaTerminal ja) in
              Some (false, foldl Fail a (FJSON <$> jaFailures ja))
            else Some (true, a)
        end
      else Some (true, a)
  | None => Some (true, a)
  end.

Definition OK (a : assertions) : option (bool * assertions) :=
  match exp a with
  | None =>
      match err a with
      | Some er =>
          Some (false,
                setTerminal (Fail a (FUnexpectedError (Some er))) true)
      | None => Some (true, a)
      end
  | Some e =>
      let '(ok, a) := errorOK e a in
      if negb ok then Some (false, a) else
      let '(ok, a) := lenOK e a in
      if negb ok then Some (false, a) else
      match matchesOK e a with
      | None => None
      | Some (ok, a) =>
          if negb ok then Some (false, a) else
          match jsonOK e a with
          | None => None
          | Some (ok, a) =>
              if negb ok then Some (false, a) else Some (true, a)
          end
      end
  end.

(** [OK] with its history: the [assertions] as they stand when [OK] is
    entered and after every check that [OK] runs, in order; a check that
    [OK] does not reach leaves no state.  Every check assigns the
    terminal flag at most once, so the states show every value the flag
    takes during the evaluation. *)
Definition OKstates (a : assertions) : option (bool * list assertions) :=
  match exp a with
  | None =>
      match err a with
      | Some er =>
          Some (false,
                [a; setTerminal (Fail a (FUnexpectedError (Some er))) true])
      | None => Some (true, [a])
      end
  | Some e =>
      let '(ok, a1) := errorOK e a in
      if negb ok then Some (false, [a; a1]) else
      let '(ok, a2) := lenOK e a1 in
      if negb ok then Some (false, [a; a1; a2]) else
      match matchesOK e a2 with
      | None => None
      | Some (ok, a3) =>
          if negb ok then Some (false, [a; a1; a2; a3]) else
          match jsonOK e a3 with
          | None => None
          | Some (ok, a4) =>
              if negb ok then Some (false, [a; a1; a2; a3; a4])
              else Some (true, [a; a1; a2; a3; a4])
          end
      end
  end.

(** ** The retry loop of [runGet] *)

(** What one tick's [doList] or [doGet] hands to [newAssertions]. *)
Definition outcome : Type := option error * response.

(** The variables of [runGet] that live across iterations. *)
Record pollState :=
  { attempts : nat; success : bool; current : assertions }.

(** The [for tick := range ticker.C] loop.  [ticks] holds the outcome of
    the action at every tick the ticker emits before the deadline closes
    its channel.  The [success := a.OK()] of the body declares a new
    variable: the [success] of [runGet] keeps its value. *)
Fixpoint pollLoop (e : option Expect) (ticks : list outcome)
    (st : pollState) : option pollState :=
  match ticks with
  | [] => Some st
  | o :: ticks' =>
      let attempts' := S (attempts st) in
      let a := newAssertions e (fst o) (snd o) in
      match OK a with
      | None => None
      | Some (success', a) =>
          let term := Terminal a in
          let st' := {| attempts := attempts'; success := success st;
                        current := a |} in
          if success' || term then Some st'
          else pollLoop e ticks' st'
      end
  end.

(** [runGet]: the failures handed to [t.Error], in order.  [resolveErr]
    is the error of [gvrFromGVK]. *)
Definition runGet (e : option Expect) (resolveErr : option error)
    (ticks : list outcome) : option (list failure) :=
  match OK (newAssertions e resolveErr RNil) with
  | None => None
  | Some (ok, a) =>
      if negb ok then Some (Failures a)
      else
        match pollLoop e ticks
                {| attempts := 0; success := false; current := a |} with
        | None => None
        | Some st =>
            if negb (success st) then Some (Failures (current st))
            else Some []
        end
  end.

(** ** The other actions *)

(** [doDelete] and [doDeleteCollection]: the failures handed to
    [t.Error].  [callErr] is the error of the client call; the response
    given to [newAssertions] is nil. *)
Definition doDelete (e : option Expect) (callErr : option error)
    : option (list failure) :=
  match OK (newAssertions e callErr RNil) with
  | None => None
  | Some (ok, a) => Some (if negb ok then Failures a else [])
  end.

Definition doDeleteCollection (e : option Expect) (callErr : option error)
    : option (list failure) :=
  match OK (newAssertions e callErr RNil) with
  | None => None
  | Some (ok, a) => Some (if negb ok then Failures a else [])
  end.

(** One object of a manifest: the error of [gvrFromGVK], then the error
    and the object of the client call. *)
Definition objectStep : Type :=
  option error * (option error * option Unstructured).

(** The loop over the objects of [runCreate], after the manifest has been
    read: the failures handed to [t.Error], in order. *)
Fixpoint runCreate (e : option Expect) (steps : list objectStep)
    : option (list failure) :=
  match steps with
  | [] => Some []
  | (resolveErr, (callErr, obj)) :: steps' =>
      match OK (newAssertions e resolveErr RNil) with
      | None => None
      | Some (ok, a) =>
          if negb ok then Some (Failures a)
          else
            match OK (newAssertions e callErr (RUnstructured obj)) with
            | None => None
            | Some (ok', a') =>
                match runCreate e steps' with
                | None => None
                | Some reported =>
                    Some ((if negb ok' then Failures a' else [])
                            ++ reported)
                end
            end
      end
  end.

(** The loop of [runApply] differs from that of [runCreate] in the client
    call only. *)
Definition runApply (e : option Expect) (steps : list objectStep)
    : option (list failure) :=
  runCreate e steps.

(** The loop over the objects of [runDelete] when its subject is a file:
    for every object the error of [gvrFromGVK], then the error of the
    [Delete] call, evaluated by [doDelete]. *)
Fixpoint runDeleteObjects (e : option Expect)
    (steps : list (option error * option error)) : option (list failure) :=
  match steps with
  | [] => Some []
  | (resolveErr, callErr) :: steps' =>
      match OK (newAssertions e resolveErr RNil) with
      | None => None
      | Some (ok, a) =>
          if negb ok then Some (Failures a)
          else
            match doDelete e callErr with
            | None => None
            | Some reported =>
                match runDeleteObjects e steps' with
                | None => None
                | Some reported' => Some (reported ++ reported')
                end
            end
      end
  end.

(** [runDelete] when its subject is a resource specifier: the kind alone
    deletes the collection, kind and name delete one resource. *)
Definition runDeleteSubject (e : option Expect) (subject : string)
    (resolveErr collectionErr deleteErr : option error)
    : option (list failure) :=
  let '(kind, name) := splitKindName subject in
  match OK (newAssertions e resolveErr RNil) with
  | None => None
  | Some (ok, a) =>
      if negb ok then Some (Failures a)
      else if bool_decide (name = EmptyString)
           then doDeleteCollection e collectionErr
           else doDelete e deleteErr
  end.

(** ** Notions used by the statements *)

(** The expectation that declares none of error, len, notfound, unknown,
    matches and json. *)
Definition undeclared (e : Expect) : Prop :=
  Error e = "" /\ Len e = None /\ NotFound e = false /\
  Unknown e = false /\ Matches e = VNil /\ JSON e = None.

(** An attempt after which the loop goes on: the evaluation failed and
    did not set the terminal flag. *)
Definition retryable (e : option Expect) (o : outcome) : Prop :=
  exists a', OK (newAssertions e (fst o) (snd o)) = Some (false, a') /\
             terminal a' = false.

(** Two [assertions] that differ in the expectation they point to at
    most, and two results of a check that agree up to it. *)
Definition sameButExp (a1 a2 : assertions) : Prop :=
  failures a1 = failures a2 /\ terminal a1 = terminal a2 /\
  err a1 = err a2 /\ r a1 = r a2.

Definition sameResult (r1 r2 : option (bool * assertions)) : Prop :=
  match r1, r2 with
  | Some (b1, a1), Some (b2, a2) => b1 = b2 /\ sameButExp a1 a2
  | None, None => True
  | _, _ => False
  end.

(** Whether the expectation declares [unknown: true]; and the failure
    that is recorded for a kind that does not resolve when it does
    not: [errorOK] records the error itself, [OK] without an expectation
    wraps it as unexpected. *)
Definition declaresUnknown (e : option Expect) : bool :=
  match e with
  | Some e' => Unknown e'
  | None => false
  end.

Definition unresolvedFailure (e : option Expect) (er : error) : failure :=
  match e with
  | Some _ => FError er
  | None => FUnexpectedError (Some er)
  end.

(** What [runCreate] hands to [t.Error] for the client call of one
    object. *)
Definition callFailures (e : option Expect) (step : objectStep)
    : list failure :=
  match OK (newAssertions e (fst (snd step))
              (RUnstructured (snd (snd step)))) with
  | Some (ok, a) => if negb ok then Failures a else []
  | None => []
  end.

(** ** Facts about the evaluator *)

(** The two swallowing statements of [errorOK] change nothing but the
    error when they go on. *)
Lemma swallow_next (e : Expect) (a a1 : assertions) :
  swallowUnknown e a >>> swallowStatus e = Next a1 ->
  failures a1 = failures a /\ terminal a1 = terminal a /\
  exp a1 = exp a /\ r a1 = r a /\
  (err a1 = err a \/ err a1 = None).
Proof.
  unfold swallowUnknown, swallowStatus, andThen.
  intros H.
  repeat (case_match; simplify_eq/=); auto 10.
Qed.

(** With no error and no expected error string, [errorOK] passes and
    leaves the assertions as they are. *)
Lemma errorOK_no_error (e : Expect) (a : assertions) :
  err a = None -> Error e = "" -> errorOK e a = (true, a).
Proof.
  intros Ha He.
  unfold errorOK, swallowUnknown, swallowStatus, expectedError,
    remainingError.
  rewrite Ha; simpl. rewrite Ha, He; simpl. by rewrite Ha.
Qed.

(** A passing check adds no failure and leaves the terminal flag. *)
Lemma errorOK_true (e : Expect) (a a' : assertions) :
  errorOK e a = (true, a') ->
  failures a' = failures a /\ terminal a' = terminal a /\
  exp a' = exp a /\ r a' = r a.
Proof.
  unfold errorOK.
  destruct (swallowUnknown e a >>> swallowStatus e) as [b a1|a1] eqn:Hs.
  - simpl. intros [= -> <-].
    unfold swallowUnknown, swallowStatus in Hs.
    repeat (case_match; simplify_eq/=).
  - apply swallow_next in Hs as (Hf & Ht & He & Hr & _).
    simpl. unfold expectedError, remainingError.
    repeat (case_match; simplify_eq/=); intros; simplify_eq/=; auto.
Qed.

Lemma lenOK_true (e : Expect) (a a' : assertions) :
  lenOK e a = (true, a') -> a' = a.
Proof.
  unfold lenOK. repeat (case_match; simplify_eq/=); congruence.
Qed.

Lemma matchesOK_true (e : Expect) (a a' : assertions) :
  matchesOK e a = Some (true, a') -> a' = a.
Proof.
  unfold matchesOK. repeat (case_match; simplify_eq/=); congruence.
Qed.

Lemma jsonOK_true (e : Expect) (a a' : assertions) :
  jsonOK e a = Some (true, a') -> a' = a.
Proof.
  unfold jsonOK. repeat (case_match; simplify_eq/=); congruence.
Qed.

(** An evaluation that passes has recorded no failure and has not set
    the terminal flag. *)
Lemma OK_true_no_failures (e : option Expect) (er : option error)
    (x : response) (a' : assertions) :
  OK (newAssertions e er x) = Some (true, a') ->
  failures a' = [] /\ terminal a' = false.
Proof.
  unfold OK. destruct e as [e|]; simpl.
  - destruct (errorOK e _) as [[] a1] eqn:H1; simpl; [|discriminate].
    destruct (lenOK e a1) as [[] a2] eqn:H2; simpl; [|discriminate].
    destruct (matchesOK e a2) as [[[] a3]|] eqn:H3; simpl;
      [|discriminate..].
    destruct (jsonOK e a3) as [[[] a4]|] eqn:H4; simpl;
      [|discriminate..].
    intros [= <-].
    apply jsonOK_true in H4 as ->. apply matchesOK_true in H3 as ->.
    apply lenOK_true in H2 as ->.
    apply errorOK_true in H1 as (-> & -> & _). done.
  - destruct er; [discriminate|]. by intros [= <-].
Qed.

(** [OK] leaves at the first check that fails. *)
Lemma OK_errorOK_false (e : Expect) (a a1 : assertions) :
  exp a = Some e -> errorOK e a = (false, a1) -> OK a = Some (false, a1).
Proof. intros He H1. unfold OK. by rewrite He, H1. Qed.

Lemma OK_lenOK_false (e : Expect) (a a1 a2 : assertions) :
  exp a = Some e -> errorOK e a = (true, a1) -> lenOK e a1 = (false, a2) ->
  OK a = Some (false, a2).
Proof. intros He H1 H2. unfold OK. by rewrite He, H1; simpl; rewrite H2. Qed.

Lemma OK_after_lenOK (e : Expect) (a a1 a2 : assertions) :
  exp a = Some e -> errorOK e a = (true, a1) -> lenOK e a1 = (true, a2) ->
  OK a =
    match matchesOK e a2 with
    | None => None
    | Some (ok, a3) =>
        if negb ok then Some (false, a3) else
        match jsonOK e a3 with
        | None => None
        | Some (ok, a4) =>
            if negb ok then Some (false, a4) else Some (true, a4)
        end
    end.
Proof. intros He H1 H2. unfold OK. by rewrite He, H1; simpl; rewrite H2. Qed.

(** *** No expectation attached *)

(** C7. With no Expectation attached, a nil action error passes with no
    failure and the terminal flag unset, and a non-nil action error
    fails with the single failure "unexpected error" and the terminal
    flag set; the evaluation has no other outcome. *)
Theorem OK_no_expectation (er : option error) (x : response) :
  OK (newAssertions None er x) =
    match er with
    | None =>
        Some (true,
              {| failures := []; terminal := false; exp := None;
                 err := None; r := x |})
    | Some e =>
        Some (false,
              {| failures := [FUnexpectedError (Some e)]; terminal := true;
                 exp := None; err := Some e; r := x |})
    end.
Proof. by destruct er. Qed.

(** *** An expectation that declares nothing *)

(** C1, as amended.  When an Expectation is attached that declares none
    of matches, len, error, notfound, unknown and json, the evaluation
    returns, and it passes if and only if the action error is nil or is
    a status error that carries the not-found code 404. *)
Theorem OK_undeclared (e : Expect) (er : option error) (x : response) :
  undeclared e ->
  exists b a',
    OK (newAssertions (Some e) er x) = Some (b, a') /\
    (b = true <->
     er = None \/ exists msg, er = Some (StatusError StatusNotFound msg)).
Proof.
  intros (He & Hl & Hn & Hu & Hm & Hj).
  unfold OK, errorOK, swallowUnknown, swallowStatus, expectedError,
    remainingError, lenOK, matchesOK, jsonOK, expectsNotFound; simpl.
  rewrite He, Hl, Hn, Hu, Hm, Hj.
  destruct er as [[m|c m|m]|].
  - eexists _, _; split; [done|]. split; [done|].
    intros [|[? ?]]; done.
  - destruct (StatusNotFound =? c) eqn:Hc.
    + apply Z.eqb_eq in Hc as <-.
      eexists _, _; split; [done|]. split; [|done]. eauto.
    + eexists _, _; split; [by simpl; rewrite Hc|].
      apply Z.eqb_neq in Hc. split; [done|].
      intros [|[? ?]]; congruence.
  - eexists _, _; split; [done|]. split; [done|].
    intros [|[? ?]]; done.
  - eexists _, _; split; [done|]. split; [|done]. eauto.
Qed.

(** *** Absence expected *)

(** C2. When the action error is a status error and the expectation
    declares absence expected, the swallowing statements clear the error
    whatever the status code is, and the evaluation goes on exactly as
    it does from a nil error; so it passes, with no failure, whenever
    the evaluation from a nil error passes. *)
Theorem absence_expected_swallows_status (e : Expect) (code : Z)
    (msg : string) (x : response) :
  expectsNotFound e = true ->
  let a := newAssertions (Some e) (Some (StatusError code msg)) x in
  swallowUnknown e a >>> swallowStatus e
    = Next (newAssertions (Some e) None x) /\
  OK a = OK (newAssertions (Some e) None x) /\
  (forall a', OK (newAssertions (Some e) None x) = Some (true, a') ->
              OK a = Some (true, a') /\ failures a' = []).
Proof.
  intros Hnf a.
  set (a0 := newAssertions (Some e) None x).
  assert (Hs : swallowUnknown e a >>> swallowStatus e = Next a0).
  { unfold swallowUnknown, swallowStatus; simpl. by rewrite Hnf. }
  assert (He : errorOK e a = errorOK e a0).
  { unfold errorOK. by rewrite Hs. }
  assert (Hok : OK a = OK a0).
  { unfold OK. change (exp a) with (Some e). change (exp a0) with (Some e).
    cbv beta iota. by rewrite He. }
  split; [done|]. split; [done|].
  intros a' Ha'. rewrite Hok. split; [done|].
  by apply OK_true_no_failures in Ha' as [? _].
Qed.

(** *** The expected error string *)

(** C3, as amended.  When the expectation declares a non-empty expected
    error string, the response [r] is not the nil interface, and the
    error that is still set after the swallowing statements does not
    contain that string, the evaluation fails with the single failure
    "not in" and the terminal flag stays unset: the attempt may be
    retried. *)
Theorem substring_mismatch_retryable (e : Expect) (er : option error)
    (x : response) (a1 : assertions) (er1 : error) :
  let a := newAssertions (Some e) er x in
  swallowUnknown e a >>> swallowStatus e = Next a1 ->
  err a1 = Some er1 ->
  Error e <> "" ->
  x <> RNil ->
  Contains (errorString er1) (Error e) = false ->
  exists a',
    OK a = Some (false, a') /\
    failures a' = [FNotIn (errorString er1) (Error e)] /\
    terminal a' = false.
Proof.
  intros a Hs He1 He Hx Hc.
  exists (Fail a1 (FNotIn (errorString er1) (Error e))).
  pose proof (swallow_next _ _ _ Hs) as (Hf & Ht & _ & Hr & _).
  split; [|by simpl; rewrite Hf, Ht].
  apply (OK_errorOK_false e); [done|].
  unfold errorOK. rewrite Hs; simpl.
  unfold expectedError. rewrite Hr, He1, Hc; simpl.
  rewrite bool_decide_eq_false_2 by done.
  by destruct x.
Qed.

(** *** The length check *)

(** C6, as amended.  For a list outcome evaluated with no action error,
    a declared expected count [n] and no declared error string: when
    the item count differs from [n], the evaluation fails with exactly
    one failure, the length mismatch, the terminal flag unset and no
    structural-match failure, whatever matches document is declared;
    when the item count is [n], the evaluation passes, provided no json
    assertion is declared and the declared matches document resolves. *)
Theorem len_check (e : Expect) (n : Z) (list : UnstructuredList) :
  Len e = Some n ->
  Error e = "" ->
  let a := newAssertions (Some e) None (RUnstructuredList (Some list)) in
  let got := Z.of_nat (length (Items list)) in
  (got <> n ->
   exists a', OK a = Some (false, a') /\
              failures a' = [FNotEqualLength n got] /\
              terminal a' = false) /\
  (got = n -> JSON e = None ->
   is_Some (matchObjectFromAny (Matches e)) ->
   OK a = Some (true, a)).
Proof.
  intros Hl He a got.
  assert (H1 : errorOK e a = (true, a)) by by apply errorOK_no_error.
  split.
  - intros Hne. apply Z.eqb_neq in Hne.
    exists (Fail a (FNotEqualLength n got)). split; [|done].
    apply (OK_lenOK_false e a a); [done..|].
    unfold lenOK. rewrite Hl; simpl. fold got. by rewrite Hne.
  - intros Heq Hj [mo Hmo]. apply Z.eqb_eq in Heq.
    rewrite (OK_after_lenOK e a a a); [|done..|].
    + unfold matchesOK, jsonOK. rewrite Hj, Hmo; simpl.
      by destruct (isNil (Matches e)).
    + unfold lenOK. rewrite Hl; simpl. fold got. by rewrite Heq.
Qed.

(** *** The terminal flag within one attempt *)

(** [Fail] leaves the terminal flag as it is. *)
Lemma foldl_Fail_terminal (fs : list failure) (a : assertions) :
  terminal (foldl Fail a fs) = terminal a.
Proof.
  revert a. induction fs as [|f fs IH]; intros a; simpl; [done|].
  by rewrite IH.
Qed.

(** C9. Within one evaluation attempt the terminal flag is never reset
    from true to false.  The states that [OKstates] records are those
    [OK] goes through: the first is the fresh [assertions], the last is
    the one whose result is read.  Along them the flag, once set, stays
    set: the check that sets it fails, [OK] returns at once, and no later
    check, [jsonOK] with the engine's flag included, runs on it. *)
Theorem terminal_monotonic (eo : option Expect) (er : option error)
    (x : response) :
  let a := newAssertions eo er x in
  OK a = (fun '(ok, states) => (ok, default a (last states)))
           <$> OKstates a /\
  (forall ok states,
      OKstates a = Some (ok, states) ->
      head states = Some a /\
      (forall i j ai aj,
          (i <= j)%nat ->
          states !! i = Some ai -> states !! j = Some aj ->
          terminal ai = true -> terminal aj = true) /\
      (forall i ai,
          states !! i = Some ai -> terminal ai = true ->
          ok = false /\ last states = Some ai)).
Proof.
  intros a.
  assert (Hstates : forall ok states,
             OKstates a = Some (ok, states) ->
             OK a = Some (ok, default a (last states)) /\
             ((exists pre z,
                  states = a :: pre ++ [z] /\
                  Forall (fun b => terminal b = false) (a :: pre) /\
                  (terminal z = true -> ok = false)) \/
              (states = [a] /\ ok = true))).
  { intros ok states. unfold OKstates, OK. destruct eo as [e|]; simpl.
    - destruct (errorOK e a) as [[] a1] eqn:H1; simpl.
      2: { intros [= <- <-]. split; [done|]. left. exists [], a1.
           split_and!; [done|by repeat constructor|done]. }
      destruct (lenOK e a1) as [[] a2] eqn:H2; simpl.
      2: { intros [= <- <-]. split; [done|]. left. exists [a1], a2.
           apply errorOK_true in H1 as (_ & H1 & _).
           split_and!; [done|by repeat constructor|done]. }
      destruct (matchesOK e a2) as [[[] a3]|] eqn:H3; simpl; [| |done].
      2: { intros [= <- <-]. split; [done|]. left. exists [a1; a2], a3.
           apply lenOK_true in H2 as ->.
           apply errorOK_true in H1 as (_ & H1 & _).
           split_and!; [done|by repeat constructor|done]. }
      apply matchesOK_true in H3 as ->. apply lenOK_true in H2 as ->.
      apply errorOK_true in H1 as (_ & H1 & _).
      destruct (jsonOK e a1) as [[[] a4]|] eqn:H4; simpl; [| |done].
      + apply jsonOK_true in H4 as ->. intros [= <- <-].
        split; [done|]. left. exists [a1; a1; a1], a1.
        split_and!; [done|by repeat constructor|]. by rewrite H1.
      + intros [= <- <-]. split; [done|]. left.
        exists [a1; a1; a1], a4.
        split_and!; [done|by repeat constructor|done].
    - destruct er as [er'|]; intros [= <- <-]; (split; [done|]).
      + left. exists [], (setTerminal (Fail a (FUnexpectedError (Some er')))
                            true).
        split_and!; [done|by repeat constructor|done].
      + by right. }
  split.
  { destruct (OKstates a) as [[ok states]|] eqn:Hs; simpl.
    - by destruct (Hstates _ _ eq_refl) as [-> _].
    - revert Hs. unfold OKstates, OK. destruct eo as [e|]; simpl.
      + destruct (errorOK e a) as [[] a1]; simpl; [|done].
        destruct (lenOK e a1) as [[] a2]; simpl; [|done].
        destruct (matchesOK e a2) as [[[] a3]|]; simpl; [|done..].
        by destruct (jsonOK e a3) as [[[] a4]|].
      + by destruct er. }
  intros ok states Hs.
  apply Hstates in Hs as [_ [(pre & z & -> & Hpre & Hz)|[-> ->]]].
  2: { split_and!; [done| |].
       - intros [|i] [|j] ai aj _ Hi Hj; simplify_eq/=; done.
       - intros [|i] ai Hi; simplify_eq/=; done. }
  assert (Hlast : forall i ai,
             (a :: pre ++ [z]) !! i = Some ai -> terminal ai = true ->
             i = length (a :: pre) /\ ai = z).
  { intros i ai Hi Hai. rewrite app_comm_cons in Hi.
    apply lookup_app_Some in Hi as [Hi|[Hlen Hi]].
    - rewrite Forall_forall in Hpre.
      apply list_elem_of_lookup_2, Hpre in Hi. congruence.
    - apply list_lookup_singleton_Some in Hi as [Hi <-].
      split; [lia|done]. }
  split_and!; [done| |].
  - intros i j ai aj Hij Hi Hj Hai.
    destruct (Hlast i ai Hi Hai) as [-> ->].
    apply lookup_lt_Some in Hj as Hlt.
    rewrite app_comm_cons, length_app in Hlt. simpl in Hlt.
    assert (j = length (a :: pre)) as -> by (simpl in *; lia).
    rewrite app_comm_cons, lookup_app_r in Hj by done.
    rewrite Nat.sub_diag in Hj. by simplify_eq/=.
  - intros i ai Hi Hai. destruct (Hlast i ai Hi Hai) as [-> ->].
    split; [by apply Hz|]. by rewrite app_comm_cons, last_snoc.
Qed.

(** *** The retry loop *)

(** The loop never assigns the [success] of [runGet]. *)
Lemma pollLoop_success (e : option Expect) (ticks : list outcome)
    (st st' : pollState) :
  pollLoop e ticks st = Some st' -> success st' = success st.
Proof.
  revert st. induction ticks as [|o ticks IH]; intros st; simpl.
  - by intros [= <-].
  - destruct (OK _) as [[ok a]|]; [|done].
    destruct (ok || Terminal a).
    + by intros [= <-].
    + intros H. by apply IH in H.
Qed.

(** The loop runs through the attempts that may be retried and stops at
    the first one that passes or is terminal, or at the last tick; the
    state it leaves holds that attempt's assertions and nothing of the
    earlier ones. *)
Lemma pollLoop_last (e : option Expect) (pre post : list outcome)
    (o : outcome) (ok : bool) (af : assertions) (st : pollState) :
  Forall (retryable e) pre ->
  OK (newAssertions e (fst o) (snd o)) = Some (ok, af) ->
  ok || terminal af = true \/ post = [] ->
  pollLoop e (pre ++ o :: post) st =
    Some {| attempts := (attempts st + length pre + 1)%nat;
            success := success st; current := af |}.
Proof.
  intros Hpre Ho Hstop. revert st.
  induction Hpre as [|o' pre (a' & Ho' & Ht') _ IH]; intros st; simpl.
  - rewrite Ho. unfold Terminal.
    replace (S (attempts st)) with (attempts st + 0 + 1)%nat by lia.
    destruct Hstop as [->| ->]; [done|]. by destruct (ok || terminal af).
  - rewrite Ho'. unfold Terminal. rewrite Ht'; simpl.
    rewrite IH; simpl. do 2 f_equal. lia.
Qed.

(** Every run of at least one tick in which no evaluation panics has
    the shape that [pollLoop_last] asks for. *)
Lemma ticks_decompose (e : option Expect) (ticks : list outcome) :
  ticks <> [] ->
  Forall (fun o => is_Some (OK (newAssertions e (fst o) (snd o)))) ticks ->
  exists pre o post ok af,
    ticks = pre ++ o :: post /\
    Forall (retryable e) pre /\
    OK (newAssertions e (fst o) (snd o)) = Some (ok, af) /\
    (ok || terminal af = true \/ post = []).
Proof.
  induction ticks as [|o ticks IH]; [done|]. intros _ Hall.
  apply Forall_cons in Hall as [[[ok af] Ho] Hrest].
  destruct (ok || terminal af) eqn:Hstop.
  { exists [], o, ticks, ok, af. auto. }
  destruct ticks as [|o' ticks'].
  { exists [], o, [], ok, af. auto. }
  destruct IH as (pre & o2 & post & ok2 & af2 & Heq & Hpre & Ho2 & Hstop2);
    [done|done|].
  apply orb_false_iff in Hstop as [-> Ht].
  exists (o :: pre), o2, post, ok2, af2.
  split; [by rewrite Heq|]. split; [|done].
  constructor; [|done]. by exists af.
Qed.

(** When the ticker emits nothing, [runGet] reports the failures of the
    prerequisite evaluation, which passed: none. *)
Lemma runGet_no_tick (e : option Expect) (resolveErr : option error)
    (a0 : assertions) :
  OK (newAssertions e resolveErr RNil) = Some (true, a0) ->
  runGet e resolveErr [] = Some [].
Proof.
  intros H0. unfold runGet, Failures. rewrite H0; simpl.
  by apply OK_true_no_failures in H0 as [-> _].
Qed.

(** C8. When the retry loop of [runGet] runs through attempts [pre]
    that fail and may be retried and then an attempt [o] that stops it
    (it passes, or it is terminal, or the ticker emits nothing after
    it), the failures reported are exactly the failures of the
    evaluation of [o]: nothing of [pre] is reported.  If [o] passes,
    nothing is reported at all. *)
Theorem runGet_reports_last_attempt (e : option Expect)
    (resolveErr : option error) (a0 : assertions)
    (pre post : list outcome) (o : outcome) (ok : bool)
    (af : assertions) :
  OK (newAssertions e resolveErr RNil) = Some (true, a0) ->
  Forall (retryable e) pre ->
  OK (newAssertions e (fst o) (snd o)) = Some (ok, af) ->
  ok || terminal af = true \/ post = [] ->
  runGet e resolveErr (pre ++ o :: post) = Some (failures af) /\
  (ok = true -> runGet e resolveErr (pre ++ o :: post) = Some []).
Proof.
  intros H0 Hpre Ho Hstop.
  assert (Hrun : runGet e resolveErr (pre ++ o :: post)
                 = Some (failures af)).
  { unfold runGet, Failures. rewrite H0; simpl.
    by rewrite (pollLoop_last e pre post o ok af). }
  split; [done|].
  intros ->. rewrite Hrun.
  by apply OK_true_no_failures in Ho as [-> _].
Qed.

(** ** Facts about the comparator *)

Lemma SFeqb_refl (f : spec_float) : isNaN f = false -> SFeqb f f = true.
Proof.
  unfold SFeqb. destruct f as [s| s| |s m ex]; simpl; try done.
  - by destruct s.
  - by destruct s; rewrite Z.compare_refl, Pos.compare_cont_refl.
Qed.

Lemma vsize_lookup (m : gmap string value) (k : string) (v : value) :
  m !! k = Some v -> (vsize v < vsize (VMap m))%nat.
Proof.
  intros Hk. simpl.
  rewrite (map_fold_delete_L _ _ k v m); [lia| |done].
  intros; lia.
Qed.

Lemma vsize_elem (l : list value) (v : value) :
  v ∈ l -> (vsize v < vsize (VList l))%nat.
Proof.
  simpl. induction 1 as [|? ? ? _ IH]; simpl; lia.
Qed.

(** Induction on documents: a mapping, when all its values have the
    property; a sequence, when all its elements have it. *)
Lemma value_ind_nested (P : value -> Prop) :
  P VNil ->
  (forall b, P (VBool b)) ->
  (forall k n, P (VInt k n)) ->
  (forall k n, P (VUint k n)) ->
  (forall k f, P (VFloat k f)) ->
  (forall k re im, P (VComplex k re im)) ->
  (forall s, P (VString s)) ->
  (forall m, map_Forall (fun _ v => P v) m -> P (VMap m)) ->
  (forall l, Forall P l -> P (VList l)) ->
  forall v, P v.
Proof.
  intros Hnil Hbool Hint Huint Hfloat Hcomplex Hstring Hmap Hlist v.
  remember (vsize v) as n eqn:Hn. revert v Hn.
  induction (lt_wf n) as [n _ IH]. intros v ->.
  destruct v as [|b|k n|k n|k f|k re im|s|m|l]; auto.
  - apply Hmap. intros k w Hk.
    apply (IH (vsize w)); [by eapply vsize_lookup|done].
  - apply Hlist. apply Forall_forall. intros w Hw.
    apply (IH (vsize w)); [by apply vsize_elem|done].
Qed.

Lemma nanFree_lookup (m : gmap string value) (k : string) (v : value) :
  nanFree (VMap m) = true -> m !! k = Some v -> nanFree v = true.
Proof.
  simpl. revert k v.
  apply (map_fold_weak_ind
           (fun (b : bool) (m' : gmap string value) =>
              forall k v, b = true -> m' !! k = Some v -> nanFree v = true)).
  - intros k v _. by rewrite lookup_empty.
  - intros i x m' b Hi IH k v [Hb Hx]%andb_true_iff.
    destruct (decide (i = k)) as [->|Hne].
    + rewrite lookup_insert_eq. by intros [= <-].
    + rewrite lookup_insert_ne by done. by apply IH.
Qed.

Lemma typesComparable_refl (v : value) : typesComparable v v = true.
Proof.
  destruct v as [|b|k n|k n|k f|k re im|s|m|l];
    try destruct k; by try apply bool_decide_eq_true_2.
Qed.

(** A document without NaN compared with itself leaves the delta as it
    is. *)
Lemma collectFieldDifferences_refl (v : value) :
  nanFree v = true ->
  forall fp d, collectFieldDifferences fp v v d = Some d.
Proof.
  induction v as [|b|k n|k n|k f|k re im|s|m IH|l IH]
    using value_ind_nested; intros Hnan fp d.
  - done.
  - simpl. by rewrite bool_decide_eq_true_2.
  - destruct k; simpl; by rewrite Z.eqb_refl.
  - destruct k; simpl; by rewrite Z.eqb_refl.
  - simpl in Hnan. apply negb_true_iff in Hnan.
    destruct k; simpl; by rewrite SFeqb_refl.
  - simpl in Hnan.
    apply andb_true_iff in Hnan as [H1%negb_true_iff H2%negb_true_iff].
    destruct k; simpl; by rewrite !SFeqb_refl.
  - simpl. by rewrite bool_decide_eq_true_2.
  - simpl.
    enough (Hsub : forall m', m' ⊆ m ->
      map_fold
        (fun matchk matchv acc =>
           match acc with
           | None => None
           | Some d' =>
               match m !! matchk with
               | None => Some (Add d' (NotPresent (fp +:+ "." +:+ matchk)))
               | Some subjectv =>
                   collectFieldDifferences (fp +:+ "." +:+ matchk)
                     matchv subjectv d'
               end
           end) (Some d) m' = Some d) by by apply Hsub.
    intros m'.
    apply (map_fold_weak_ind
             (fun res (m' : gmap string value) => m' ⊆ m -> res = Some d)).
    + done.
    + intros i x m0 res Hi IHres Hsub.
      rewrite IHres
        by (etrans; [by apply insert_subseteq|done]).
      assert (Hx : m !! i = Some x).
      { eapply lookup_weaken; [|done]. apply lookup_insert_eq. }
      rewrite Hx. apply (IH i x Hx). by eapply nanFree_lookup.
  - simpl. rewrite bool_decide_eq_true_2 by done. simpl.
    assert (Hall : Forall (fun v => forall fp d,
                             collectFieldDifferences fp v v d = Some d) l).
    { simpl in Hnan. rewrite forallb_forall in Hnan.
      rewrite Forall_forall in IH |- *.
      intros w Hw. apply IH; [done|]. by apply Hnan, list_elem_of_In. }
    clear IH Hnan. generalize 0%nat. revert d.
    induction Hall as [|w l Hw _ IHl]; intros d x; [done|].
    rewrite Hw. apply IHl.
Qed.

(** C5, as amended.  For every document [X] that holds no NaN,
    comparing [X] with itself yields an empty diff. *)
Theorem compare_reflexive (X : gmap string value) :
  nanFree (VMap X) = true ->
  compareResourceToMatchObject {| Object := X |} X = Some [].
Proof.
  intros Hnan. unfold compareResourceToMatchObject.
  by apply collectFieldDifferences_refl.
Qed.

(** C10. A declared Matches value that is neither a string nor a
    mapping resolves to the empty mapping; comparing any resource with
    the empty mapping yields no difference; so the structural match
    check passes against every single-item outcome and records
    nothing. *)
Theorem matches_neither_string_nor_map (m : value) :
  (forall s, m <> VString s) ->
  (forall mm, m <> VMap mm) ->
  matchObjectFromAny m = Some ∅ /\
  (forall res, compareResourceToMatchObject res ∅ = Some []) /\
  (forall e a res,
      Matches e = m -> r a = RUnstructured (Some res) ->
      matchesOK e a = Some (true, a)).
Proof.
  intros Hs Hm.
  assert (H1 : matchObjectFromAny m = Some ∅).
  { destruct m; try done; [by destruct (Hs s)|by destruct (Hm m)]. }
  assert (H2 : forall res, compareResourceToMatchObject res ∅ = Some []).
  { intros res. unfold compareResourceToMatchObject; simpl.
    by rewrite map_fold_empty. }
  split; [done|]. split; [done|].
  intros e a res He Hr. unfold matchesOK.
  rewrite He, H1, Hr, H2; simpl.
  by destruct (negb (isNil m) && hasSubject a).
Qed.

(** [Atoi] reads back what [Itoa] writes. *)
Lemma digitOf_pretty_N_char (x : N) :
  (x < 10)%N -> digitOf (pretty_N_char x) = Some (Z.of_N x).
Proof.
  intros Hx.
  assert (x = 0 \/ x = 1 \/ x = 2 \/ x = 3 \/ x = 4 \/ x = 5 \/ x = 6 \/
          x = 7 \/ x = 8 \/ x = 9)%N as H by lia.
  repeat (destruct H as [->|H]; [reflexivity|]). by subst.
Qed.

Lemma parseDigits_pretty_N_go (x : N) (s : string) :
  parseDigits (pretty_N_go x s) 0 = parseDigits s (Z.of_N x).
Proof.
  revert s. induction (N.lt_wf_0 x) as [x _ IH]. intros s.
  destruct (decide (x = 0)%N) as [->|Hx].
  { by rewrite pretty_N_go_0. }
  rewrite pretty_N_go_step by lia.
  rewrite IH by (apply N.div_lt; lia). simpl.
  rewrite digitOf_pretty_N_char by (apply N.mod_lt; lia).
  f_equal. rewrite N2Z.inj_div, N2Z.inj_mod. simpl Z.of_N.
  pose proof (Z.div_mod (Z.of_N x) 10). lia.
Qed.

Lemma pretty_N_go_head (x : N) :
  (0 < x)%N ->
  exists c rest, pretty_N_go x "" = String c rest /\ is_Some (digitOf c) /\
                 parseDigits (String c rest) 0 = Some (Z.of_N x).
Proof.
  intros Hx.
  pose proof (parseDigits_pretty_N_go x "") as Hp. simpl in Hp.
  destruct (pretty_N_go x "") as [|c rest] eqn:Hs.
  { simpl in Hp. injection Hp as Hp. lia. }
  exists c, rest. split; [done|]. split; [|done].
  simpl in Hp. by destruct (digitOf c).
Qed.

Lemma Atoi_Itoa (n : Z) :
  minInt64 <= n <= maxInt64 -> Atoi (Itoa n) = Some n.
Proof.
  intros Hn. unfold Itoa, pretty, pretty_Z.
  destruct n as [|p|p].
  - reflexivity.
  - unfold pretty, pretty_positive, pretty, pretty_N.
    rewrite decide_False by done.
    destruct (pretty_N_go_head (N.pos p)) as (c & rest & -> & [dg Hc] & Hp);
      [lia|].
    unfold Atoi.
    assert (Hm : bool_decide (c = "-"%char) = false).
    { apply bool_decide_eq_false_2. by intros ->. }
    assert (Hpl : bool_decide (c = "+"%char) = false).
    { apply bool_decide_eq_false_2. by intros ->. }
    rewrite Hm, Hpl. cbn [orb]. rewrite Hp. cbn [Z.of_N].
    destruct Hn as [H1%Z.leb_le H2%Z.leb_le]. by rewrite H1, H2.
  - unfold pretty, pretty_positive, pretty, pretty_N.
    rewrite decide_False by done.
    destruct (pretty_N_go_head (N.pos p)) as (c & rest & Heq & [dg Hc] & Hp);
      [lia|].
    rewrite Heq.
    change ("-" +:+ String c rest) with (String "-" (String c rest)).
    unfold Atoi. rewrite bool_decide_eq_true_2 by done. cbn [orb].
    rewrite Hp. cbn [Z.of_N]. change (- Z.pos p) with (Z.neg p).
    destruct Hn as [H1%Z.leb_le H2%Z.leb_le]. by rewrite H1, H2.
Qed.

(** C4, as amended.  An expected value of type int, int8, int32 or
    int64 against an actual string: the string is parsed by [Atoi] and
    there is no difference exactly when the parse succeeds with the
    integer's value; otherwise there is one difference.  An expected
    string against an actual value of type int: the integer is rendered
    by [Itoa] and there is no difference exactly when the rendering is
    the expected string; otherwise there is one difference.  Expected
    {n: 2} against actual {n: "2"} yields an empty diff, and expected
    {n: "2"} against actual {n: 3} yields exactly one difference. *)
Theorem int_string_comparison (fp : string) (k : int_kind) (n : Z)
    (s : string) (d : delta) :
  intListed k = true ->
  (Atoi s = Some n ->
   collectFieldDifferences fp (VInt k n) (VString s) d = Some d) /\
  (Atoi s <> Some n ->
   collectFieldDifferences fp (VInt k n) (VString s) d
     = Some (d ++ [DifferentValues fp (VInt k n) (VString s)])) /\
  (s = Itoa n ->
   collectFieldDifferences fp (VString s) (VInt KInt n) d = Some d) /\
  (s <> Itoa n ->
   collectFieldDifferences fp (VString s) (VInt KInt n) d
     = Some (d ++ [DifferentValues fp (VString s) (VInt KInt n)])) /\
  compareResourceToMatchObject
    {| Object := {[ "n"%string := VString "2" ]} |}
    {[ "n"%string := VInt KInt 2 ]} = Some [] /\
  compareResourceToMatchObject
    {| Object := {[ "n"%string := VInt KInt 3 ]} |}
    {[ "n"%string := VString "2" ]}
    = Some [DifferentValues "$.n" (VString "2") (VInt KInt 3)].
Proof.
  intros Hk.
  split.
  { intros Ha. destruct k; try done; simpl; rewrite Ha;
      by rewrite Z.eqb_refl. }
  split.
  { intros Ha. destruct k; try done; simpl;
      (destruct (Atoi s) as [sv|]; [|done]);
      (destruct (n =? sv) eqn:Hn; [|done]);
      apply Z.eqb_eq in Hn; congruence. }
  split.
  { intros ->. simpl. by rewrite bool_decide_eq_true_2. }
  split.
  { intros Hne. simpl. by rewrite bool_decide_eq_false_2. }
  split; by vm_compute.
Qed.

(** With the string expected and an int actual, a comparison that reports
    no difference has compared equal numbers. *)
Corollary string_int_no_difference_sound (fp s : string) (n : Z) (d : delta) :
  minInt64 <= n <= maxInt64 ->
  collectFieldDifferences fp (VString s) (VInt KInt n) d = Some d ->
  Atoi s = Some n.
Proof.
  intros Hn. simpl.
  destruct (bool_decide (s = Itoa n)) eqn:Hs; simpl.
  - apply bool_decide_eq_true_1 in Hs as ->. intros _. by apply Atoi_Itoa.
  - unfold Add. intros [= Hd].
    apply (f_equal length) in Hd. rewrite length_app in Hd. simpl in Hd. lia.
Qed.

(** ** More facts about the comparator *)

Lemma typesComparable_sym (a b : value) :
  typesComparable a b = typesComparable b a.
Proof.
  destruct a as [|b1|k n1|k n1|k f1|k re1 im1|s1|m1|l1],
    b as [|b2|k' n2|k' n2|k' f2|k' re2 im2|s2|m2|l2];
    try destruct k; try destruct k'; reflexivity.
Qed.

Lemma map_fold_all_lookup (f : value -> bool) (m : gmap string value)
    (k : string) (v : value) :
  map_fold (fun _ w acc => acc && f w) true m = true ->
  m !! k = Some v -> f v = true.
Proof.
  revert k v.
  apply (map_fold_weak_ind
           (fun (b : bool) (m' : gmap string value) =>
              forall k v, b = true -> m' !! k = Some v -> f v = true)).
  - intros k v _. by rewrite lookup_empty.
  - intros i x m' b Hi IH k v [Hb Hx]%andb_true_iff.
    destruct (decide (i = k)) as [->|Hne].
    + rewrite lookup_insert_eq. by intros [= <-].
    + rewrite lookup_insert_ne by done. by apply IH.
Qed.

Lemma foldr_step_acc {A} (step : A -> option delta -> option delta)
    (l : list A) (d : delta) :
  Forall (fun x => step x None = None /\
                   forall d d0, step x (Some (d ++ d0))
                                = (d ++.) <$> step x (Some d0)) l ->
  foldr step (Some d) l = (d ++.) <$> foldr step (Some []) l.
Proof.
  induction 1 as [|x l [Hn Hs] _ IHl]; cbn [foldr].
  { simpl. by rewrite app_nil_r. }
  rewrite IHl. destruct (foldr step (Some []) l) as [d0|]; simpl.
  - apply Hs.
  - by rewrite Hn.
Qed.

Lemma collectFieldDifferences_acc (m : value) :
  forall fp s d,
    collectFieldDifferences fp m s d
    = (d ++.) <$> collectFieldDifferences fp m s [].
Proof.
  induction m as [|b|k n|k n|k f|k re im|ms|mm IH|ml IH]
    using value_ind_nested; intros fp s d.
  1-7: simpl; repeat case_match; simpl; unfold Add;
       rewrite ?app_nil_r; done.
  - destruct s; simpl; try (unfold Add; done).
    rewrite !map_fold_foldr.
    apply foldr_step_acc. apply Forall_forall. intros [k v] Hkv.
    apply elem_of_map_to_list in Hkv. pose proof (IH k v Hkv) as Hv.
    simpl in Hv. split; [done|]. intros d1 d0. simpl.
    destruct (m !! k) as [sv|].
    + rewrite (Hv _ _ (d1 ++ d0)), (Hv _ _ d0).
      destruct (collectFieldDifferences _ v sv []); simpl; [|done].
      by rewrite app_assoc.
    + unfold Add. simpl. by rewrite app_assoc.
  - destruct s as [| | | | | | | |sl]; simpl; try (unfold Add; done).
    destruct (bool_decide (length ml = length sl)); simpl;
      [|unfold Add; done].
    generalize 0%nat. revert sl d.
    induction IH as [|v l Hv _ IHl]; intros sl d x; simpl.
    { by rewrite app_nil_r. }
    destruct sl as [|sv sl]; [done|].
    rewrite (Hv _ _ d).
    destruct (collectFieldDifferences _ v sv []) as [d0|]; simpl; [|done].
    rewrite (IHl sl (d ++ d0)), (IHl sl d0).
    destruct ((fix go (x0 : nat) (ml0 sl0 : list value) (d1 : delta) {struct ml0} := _) (S x) l sl []); simpl; [|done].
    by rewrite app_assoc.
Qed.

Lemma collectFieldDifferences_grows (fp : string) (m s : value)
    (d d' : delta) :
  collectFieldDifferences fp m s d = Some d' -> exists ds, d' = d ++ ds.
Proof.
  rewrite collectFieldDifferences_acc.
  destruct (collectFieldDifferences fp m s []) as [ds|]; simpl; [|done].
  intros [= <-]. by exists ds.
Qed.

Lemma foldr_ext_Forall {A B} (f g : A -> B -> B) (b : B) (l : list A) :
  Forall (fun x => forall acc, f x acc = g x acc) l ->
  foldr f b l = foldr g b l.
Proof.
  induction 1 as [|x l Hx _ IHl]; cbn [foldr]; [done|].
  by rewrite IHl, Hx.
Qed.

Lemma foldr_is_Some {A} (step : A -> option delta -> option delta)
    (l : list A) (d : delta) :
  Forall (fun x => forall d, is_Some (step x (Some d))) l ->
  is_Some (foldr step (Some d) l).
Proof.
  induction 1 as [|x l Hx _ [d0 IHl]]; cbn [foldr]; [done|].
  rewrite IHl. apply Hx.
Qed.

Lemma collect_reads_expected_keys (fp : string)
    (m sm sm' : gmap string value) (d : delta) :
  (forall k, is_Some (m !! k) -> sm !! k = sm' !! k) ->
  collectFieldDifferences fp (VMap m) (VMap sm) d
  = collectFieldDifferences fp (VMap m) (VMap sm') d.
Proof.
  intros Hagree. simpl. rewrite !map_fold_foldr.
  apply foldr_ext_Forall, Forall_forall. intros [k v] Hkv acc.
  apply elem_of_map_to_list in Hkv. simpl.
  by rewrite (Hagree k) by done.
Qed.

Lemma collect_missing_key (fp : string) (m sm : gmap string value)
    (d d' : delta) (k : string) (v : value) :
  collectFieldDifferences fp (VMap m) (VMap sm) d = Some d' ->
  m !! k = Some v -> sm !! k = None ->
  NotPresent (fp +:+ "." +:+ k) ∈ d'.
Proof.
  simpl. rewrite map_fold_foldr. intros Hfold Hk Hs.
  apply elem_of_map_to_list in Hk.
  revert d' Hfold. induction (map_to_list m) as [|[k1 v1] l IHl];
    intros d' Hfold.
  { by apply elem_of_nil in Hk. }
  cbn [foldr] in Hfold.
  destruct (foldr _ (Some d) l) as [d0|] eqn:Hl; simpl in Hfold; [|done].
  apply elem_of_cons in Hk as [[= <- <-]|Hk].
  - rewrite Hs in Hfold. injection Hfold as <-.
    unfold Add. apply elem_of_app. right. apply list_elem_of_singleton.
    done.
  - specialize (IHl Hk d0 eq_refl).
    destruct (sm !! k1) as [sv|].
    + apply collectFieldDifferences_grows in Hfold as [ds ->].
      apply elem_of_app. by left.
    + injection Hfold as <-. unfold Add. apply elem_of_app. by left.
Qed.

Lemma collect_stringFree_total (m : value) :
  stringFree m = true ->
  forall fp s d, is_Some (collectFieldDifferences fp m s d).
Proof.
  induction m as [|b|k n|k n|k f|k re im|ms|mm IH|ml IH]
    using value_ind_nested; intros Hsf fp s d.
  1-6: simpl; repeat case_match; done.
  - done.
  - destruct s; simpl; try done.
    rewrite map_fold_foldr. apply foldr_is_Some, Forall_forall.
    intros [k v] Hkv d0. apply elem_of_map_to_list in Hkv. simpl.
    destruct (m !! k); [|done].
    apply (IH k v Hkv). by eapply (map_fold_all_lookup stringFree).
  - destruct s as [| | | | | | | |sl]; simpl; try done.
    destruct (bool_decide (length ml = length sl)) eqn:Hlen; simpl;
      [|done].
    apply bool_decide_eq_true_1 in Hlen.
    simpl in Hsf. rewrite forallb_forall in Hsf.
    assert (Hall : Forall (fun v => forall fp s d,
                             is_Some (collectFieldDifferences fp v s d)) ml).
    { rewrite Forall_forall in IH |- *. intros w Hw.
      apply IH; [done|]. by apply Hsf, list_elem_of_In. }
    clear IH Hsf. generalize 0%nat. revert sl d Hlen.
    induction Hall as [|v l Hv _ IHl]; intros sl d Hlen x; [done|].
    destruct sl as [|sv sl]; [done|]. simpl in Hlen.
    destruct (Hv (fp +:+ "[" +:+ pretty x +:+ "]") sv d) as [d0 Hd0].
    rewrite Hd0. apply IHl. lia.
Qed.

Lemma collect_goIntOnly_total (m : value) :
  forall fp s d,
    goIntOnly s = true -> is_Some (collectFieldDifferences fp m s d).
Proof.
  induction m as [|b|k n|k n|k f|k re im|ms|mm IH|ml IH]
    using value_ind_nested; intros fp s d Hs.
  1-6: simpl; repeat case_match; done.
  - destruct s as [| |k n| | | | | |]; simpl; try done.
    + simpl in Hs. apply bool_decide_eq_true_1 in Hs as ->.
      by destruct (bool_decide _).
    + by destruct (bool_decide _).
  - destruct s as [| | | | | | |sm|]; simpl; try done.
    rewrite map_fold_foldr. apply foldr_is_Some, Forall_forall.
    intros [k v] Hkv d0. apply elem_of_map_to_list in Hkv. simpl.
    destruct (sm !! k) as [sv|] eqn:Hsv; [|done].
    apply (IH k v Hkv). by eapply (map_fold_all_lookup goIntOnly).
  - destruct s as [| | | | | | | |sl]; simpl; try done.
    destruct (bool_decide (length ml = length sl)) eqn:Hlen; simpl;
      [|done].
    apply bool_decide_eq_true_1 in Hlen.
    simpl in Hs. rewrite forallb_forall in Hs.
    assert (Hsl : Forall (fun w => goIntOnly w = true) sl).
    { apply Forall_forall. intros w Hw. by apply Hs, list_elem_of_In. }
    clear Hs. generalize 0%nat. revert sl d Hlen Hsl.
    induction IH as [|v l Hv _ IHl]; intros sl d Hlen Hsl x; [done|].
    destruct sl as [|sv sl]; [done|]. simpl in Hlen.
    apply Forall_cons in Hsl as [Hsv Hsl].
    destruct (Hv (fp +:+ "[" +:+ pretty x +:+ "]") sv d Hsv) as [d0 Hd0].
    rewrite Hd0. apply IHl; [lia|done].
Qed.

(** ** More facts about the evaluator *)

Lemma foldl_Fail_failures (fs : list failure) (a : assertions) :
  failures (foldl Fail a fs) = failures a ++ fs.
Proof.
  revert a. induction fs as [|f fs IH]; intros a; simpl.
  - by rewrite app_nil_r.
  - rewrite IH. simpl. by rewrite <- app_assoc.
Qed.

Lemma foldl_Fail_rest (fs : list failure) (a : assertions) :
  err (foldl Fail a fs) = err a /\ r (foldl Fail a fs) = r a /\
  exp (foldl Fail a fs) = exp a.
Proof.
  revert a. induction fs as [|f fs IH]; intros a; simpl; [done|].
  by destruct (IH (Fail a f)) as (-> & -> & ->).
Qed.

Lemma errorOK_false (e : Expect) (a a' : assertions) :
  errorOK e a = (false, a') ->
  exists f, failures a' = failures a ++ [f] /\ failureCheck f = ByError.
Proof.
  unfold errorOK, swallowUnknown, swallowStatus, expectedError,
    remainingError, andThen, finish.
  intros H. repeat (case_match; simplify_eq/=); by eexists.
Qed.

Lemma lenOK_false (e : Expect) (a a' : assertions) :
  lenOK e a = (false, a') ->
  exists f, failures a' = failures a ++ [f] /\ failureCheck f = ByLen /\
            terminal a' = terminal a.
Proof.
  unfold lenOK. intros H. repeat (case_match; simplify_eq/=); by eexists.
Qed.

Lemma matchesOK_false (e : Expect) (a a' : assertions) :
  matchesOK e a = Some (false, a') ->
  exists res matchObj ds,
    r a = RUnstructured (Some res) /\
    matchObjectFromAny (Matches e) = Some matchObj /\
    compareResourceToMatchObject res matchObj = Some ds /\
    ds <> [] /\
    a' = foldl Fail a (FMatchesNotEqual <$> ds).
Proof.
  unfold matchesOK, Empty, Differences. intros H.
  repeat (case_match; simplify_eq/=).
  eexists _, _, _. repeat split; try done.
  intros ->. by rewrite bool_decide_eq_true_2 in *.
Qed.

Lemma jsonOK_false (e : Expect) (a a' : assertions) :
  jsonOK e a = Some (false, a') ->
  exists j b,
    JSON e = Some j /\ hasSubject a = true /\
    jaOK (jsonNew ext j b) = false /\
    a' = foldl Fail (setTerminal a (jaTerminal (jsonNew ext j b)))
           (FJSON <$> jaFailures (jsonNew ext j b)).
Proof.
  unfold jsonOK. intros H.
  repeat (case_match; simplify_eq/=); eexists _, _;
    repeat split; try done; by apply negb_true_iff.
Qed.

(** The ways in which the evaluation of a fresh [assertions] fails. *)
Lemma OK_false_cases (eo : option Expect) (er : option error)
    (x : response) (a' : assertions) :
  OK (newAssertions eo er x) = Some (false, a') ->
  (exists f, failures a' = [f] /\ failureCheck f = ByError) \/
  (exists f, failures a' = [f] /\ failureCheck f = ByLen /\
             terminal a' = false) \/
  (exists ds, ds <> [] /\ failures a' = FMatchesNotEqual <$> ds /\
              terminal a' = false) \/
  (exists j b, jaOK (jsonNew ext j b) = false /\
               failures a' = FJSON <$> jaFailures (jsonNew ext j b) /\
               terminal a' = jaTerminal (jsonNew ext j b)).
Proof.
  unfold OK. destruct eo as [e|]; simpl.
  - destruct (errorOK e _) as [[] a1] eqn:H1; simpl.
    2:{ intros [= <-]. left.
        apply errorOK_false in H1 as (f & Hf & Hc). by exists f. }
    apply errorOK_true in H1 as (Hf1 & Ht1 & _). simpl in Hf1, Ht1.
    destruct (lenOK e a1) as [[] a2] eqn:H2; simpl.
    2:{ intros [= <-]. right; left.
        apply lenOK_false in H2 as (f & Hf & Hc & Ht).
        exists f. by rewrite Hf, Hf1, Ht, Ht1. }
    apply lenOK_true in H2 as ->.
    destruct (matchesOK e a1) as [[[] a3]|] eqn:H3; simpl; [| |done].
    2:{ intros [= <-]. right; right; left.
        apply matchesOK_false in H3 as (res & mo & ds & _ & _ & _ & Hds & ->).
        exists ds. split; [done|].
        by rewrite foldl_Fail_failures, foldl_Fail_terminal, Hf1, Ht1. }
    apply matchesOK_true in H3 as ->.
    destruct (jsonOK e a1) as [[[] a4]|] eqn:H4; simpl; [done| |done].
    intros [= <-]. right; right; right.
    apply jsonOK_false in H4 as (j & b & _ & _ & Hj & ->).
    exists j, b. split; [done|].
    by rewrite foldl_Fail_failures, foldl_Fail_terminal; simpl; rewrite Hf1.
  - destruct er as [er|]; [|done]. intros [= <-]. left. by eexists.
Qed.

Lemma sameButExp_Fail (a1 a2 : assertions) (f : failure) :
  sameButExp a1 a2 -> sameButExp (Fail a1 f) (Fail a2 f).
Proof. intros (Hf & Ht & He & Hr). by repeat split; simpl; try congruence. Qed.

Lemma sameButExp_setTerminal (a1 a2 : assertions) (t : bool) :
  sameButExp a1 a2 -> sameButExp (setTerminal a1 t) (setTerminal a2 t).
Proof. intros (Hf & Ht & He & Hr). by repeat split; simpl. Qed.

Lemma sameButExp_setErr (a1 a2 : assertions) (er : option error) :
  sameButExp a1 a2 -> sameButExp (setErr a1 er) (setErr a2 er).
Proof. intros (Hf & Ht & He & Hr). by repeat split; simpl. Qed.

Lemma sameButExp_foldl_Fail (fs : list failure) (a1 a2 : assertions) :
  sameButExp a1 a2 -> sameButExp (foldl Fail a1 fs) (foldl Fail a2 fs).
Proof.
  revert a1 a2. induction fs as [|f fs IH]; intros a1 a2 H; simpl; [done|].
  by apply IH, sameButExp_Fail.
Qed.

#[local] Hint Resolve sameButExp_Fail sameButExp_setTerminal
  sameButExp_setErr sameButExp_foldl_Fail : core.

(** The checks read the assertions, not the expectation they point to;
    and of the expectation each check reads its own fields only. *)
Lemma errorOK_congr (e1 e2 : Expect) (a1 a2 : assertions) :
  sameButExp a1 a2 ->
  Error e1 = Error e2 -> Unknown e1 = Unknown e2 ->
  (expectsNotFound e1 = expectsNotFound e2 \/
   forall c m, err a1 <> Some (StatusError c m)) ->
  sameResult (Some (errorOK e1 a1)) (Some (errorOK e2 a2)).
Proof.
  destruct a1 as [f1 t1 x1 er1 r1], a2 as [f2 t2 x2 er2 r2].
  intros (Hf & Ht & He & Hr) HE HU HN. simpl in *. subst f2 t2 er2 r2.
  unfold errorOK, swallowUnknown, swallowStatus, expectedError,
    remainingError, andThen, finish, sameResult, sameButExp.
  simpl. rewrite <- HE, <- HU.
  destruct er1 as [[m|c m|m]|]; simpl.
  - destruct (Unknown e1); simpl; [|done].
    by destruct (negb (bool_decide (Error e1 = "")) && negb (isNilResponse r1)).
  - assert (HN' : expectsNotFound e1 = expectsNotFound e2).
    { destruct HN as [HN|HN]; [done|]. by destruct (HN c m). }
    rewrite <- HN'.
    destruct (expectsNotFound e1); simpl;
      [|destruct (StatusNotFound =? c); simpl; [|done]];
      by destruct (negb (bool_decide (Error e1 = ""))
                     && negb (isNilResponse r1)).
  - destruct (negb (bool_decide (Error e1 = "")) && negb (isNilResponse r1));
      simpl; [by destruct (Contains m (Error e1))|done].
  - by destruct (negb (bool_decide (Error e1 = "")) && negb (isNilResponse r1)).
Qed.

Lemma lenOK_congr (e1 e2 : Expect) (a1 a2 : assertions) :
  sameButExp a1 a2 ->
  (Len e1 = Len e2 \/ forall l, r a1 <> RUnstructuredList (Some l)) ->
  sameResult (Some (lenOK e1 a1)) (Some (lenOK e2 a2)).
Proof.
  destruct a1 as [f1 t1 x1 er1 r1], a2 as [f2 t2 x2 er2 r2].
  intros (Hf & Ht & He & Hr) HL. simpl in *. subst f2 t2 er2 r2.
  unfold lenOK, sameResult, sameButExp. simpl.
  destruct r1 as [|p|[l|]].
  - by destruct (Len e1), (Len e2).
  - by destruct (Len e1), (Len e2).
  - destruct HL as [<-|HL]; [|by destruct (HL l)].
    destruct (Len e1); [|done]. by destruct (negb _).
  - by destruct (Len e1), (Len e2).
Qed.

Lemma matchesOK_congr (e1 e2 : Expect) (a1 a2 : assertions) :
  sameButExp a1 a2 -> Matches e1 = Matches e2 ->
  sameResult (matchesOK e1 a1) (matchesOK e2 a2).
Proof.
  destruct a1 as [f1 t1 x1 er1 r1], a2 as [f2 t2 x2 er2 r2].
  intros (Hf & Ht & He & Hr) HM. simpl in *. subst f2 t2 er2 r2.
  unfold matchesOK, hasSubject, sameResult. simpl. rewrite <- HM.
  repeat (case_match; simplify_eq/=); try done.
  split; [done|]. by apply sameButExp_foldl_Fail.
Qed.

Lemma jsonOK_congr (e1 e2 : Expect) (a1 a2 : assertions) :
  sameButExp a1 a2 -> JSON e1 = JSON e2 ->
  sameResult (jsonOK e1 a1) (jsonOK e2 a2).
Proof.
  destruct a1 as [f1 t1 x1 er1 r1], a2 as [f2 t2 x2 er2 r2].
  intros (Hf & Ht & He & Hr) HJ. simpl in *. subst f2 t2 er2 r2.
  unfold jsonOK, hasSubject, sameResult. simpl. rewrite <- HJ.
  repeat (case_match; simplify_eq/=); try done;
    (split; [done|]); by apply sameButExp_foldl_Fail.
Qed.

Lemma sameResult_verdict (r1 r2 : option (bool * assertions)) :
  sameResult r1 r2 -> verdict r1 = verdict r2.
Proof.
  destruct r1 as [[b1 a1]|], r2 as [[b2 a2]|]; simpl; try done.
  intros (-> & Hf & Ht & _). unfold Failures, Terminal. by rewrite Hf, Ht.
Qed.

Lemma OK_congr (e1 e2 : Expect) (er : option error) (x : response) :
  Error e1 = Error e2 -> Unknown e1 = Unknown e2 ->
  Matches e1 = Matches e2 -> JSON e1 = JSON e2 ->
  (expectsNotFound e1 = expectsNotFound e2 \/
   forall c m, er <> Some (StatusError c m)) ->
  (Len e1 = Len e2 \/ forall l, x <> RUnstructuredList (Some l)) ->
  sameResult (OK (newAssertions (Some e1) er x))
    (OK (newAssertions (Some e2) er x)).
Proof.
  intros HE HU HM HJ HN HL.
  set (a1 := newAssertions (Some e1) er x).
  set (a2 := newAssertions (Some e2) er x).
  assert (Hs : sameButExp a1 a2) by done.
  unfold OK. change (exp a1) with (Some e1). change (exp a2) with (Some e2).
  cbv beta iota.
  pose proof (errorOK_congr e1 e2 a1 a2 Hs HE HU HN) as H1.
  destruct (errorOK e1 a1) as [b1 a1'] eqn:E1, (errorOK e2 a2) as [b2 a2'].
  destruct H1 as [<- Hs1]. destruct b1; simpl; [|done].
  apply errorOK_true in E1 as (_ & _ & _ & Hr1).
  assert (HL' : Len e1 = Len e2 \/
                forall l, r a1' <> RUnstructuredList (Some l)).
  { destruct HL as [HL|HL]; [by left|right]. by rewrite Hr1. }
  pose proof (lenOK_congr e1 e2 a1' a2' Hs1 HL') as H2.
  destruct (lenOK e1 a1') as [b1 a1''], (lenOK e2 a2') as [b2 a2''].
  destruct H2 as [<- Hs2]. destruct b1; simpl; [|done].
  pose proof (matchesOK_congr e1 e2 a1'' a2'' Hs2 HM) as H3.
  destruct (matchesOK e1 a1'') as [[b1 a13]|],
    (matchesOK e2 a2'') as [[b2 a23]|]; simpl in H3; try done.
  destruct H3 as [<- Hs3]. destruct b1; simpl; [|done].
  pose proof (jsonOK_congr e1 e2 a13 a23 Hs3 HJ) as H4.
  destruct (jsonOK e1 a13) as [[b1 a14]|],
    (jsonOK e2 a23) as [[b2 a24]|]; simpl in H4; try done.
  destruct H4 as [<- Hs4]. by destruct b1.
Qed.

(** With a nil response the expected error string, [len], [matches] and
    [json] are not looked at: [OK] is [errorOK] without its third
    statement. *)
Lemma OK_nil (e : Expect) (a : assertions) :
  exp a = Some e -> r a = RNil ->
  OK a = Some (finish (swallowUnknown e a >>> swallowStatus e
                         >>> remainingError)).
Proof.
  intros He Hr. unfold OK. rewrite He.
  assert (H1 : errorOK e a
               = finish (swallowUnknown e a >>> swallowStatus e
                           >>> remainingError)).
  { unfold errorOK. destruct (swallowUnknown e a >>> swallowStatus e)
      as [b a1|a1] eqn:Hs; [done|].
    apply swallow_next in Hs as (_ & _ & _ & Hr1 & _). simpl.
    unfold expectedError. rewrite Hr1, Hr. simpl.
    by rewrite andb_false_r. }
  rewrite <- H1. clear H1.
  destruct (errorOK e a) as [[] a1] eqn:Hfin; simpl; [|done].
  apply errorOK_true in Hfin as (_ & _ & _ & Hr1).
  rewrite Hr in Hr1.
  assert (H2 : lenOK e a1 = (true, a1)).
  { unfold lenOK. rewrite Hr1. by destruct (Len e). }
  assert (H3 : matchesOK e a1 = Some (true, a1)).
  { unfold matchesOK, hasSubject. rewrite Hr1. by rewrite andb_false_r. }
  assert (H4 : jsonOK e a1 = Some (true, a1)).
  { unfold jsonOK, hasSubject. rewrite Hr1. by destruct (JSON e). }
  by rewrite H2; simpl; rewrite H3; simpl; rewrite H4.
Qed.

Lemma OK_nil_no_error (eo : option Expect) :
  OK (newAssertions eo None RNil) = Some (true, newAssertions eo None RNil).
Proof.
  destruct eo as [e|]; [|done]. by rewrite (OK_nil e).
Qed.

Lemma OK_nil_false (eo : option Expect) (er : option error)
    (a' : assertions) :
  OK (newAssertions eo er RNil) = Some (false, a') ->
  exists f, failures a' = [f] /\ failureCheck f = ByError.
Proof.
  destruct eo as [e|].
  - rewrite (OK_nil e) by done.
    unfold swallowUnknown, swallowStatus, remainingError, andThen, finish.
    intros H. repeat (case_match; simplify_eq/=); by eexists.
  - unfold OK; simpl. destruct er; [|done]. intros [= <-]. by eexists.
Qed.

Lemma OK_nil_congr (e1 e2 : Expect) (er : option error) :
  Unknown e1 = Unknown e2 -> expectsNotFound e1 = expectsNotFound e2 ->
  sameResult (OK (newAssertions (Some e1) er RNil))
    (OK (newAssertions (Some e2) er RNil)).
Proof.
  intros HU HN. rewrite (OK_nil e1), (OK_nil e2) by done.
  unfold swallowUnknown, swallowStatus, remainingError, andThen, finish,
    sameResult, sameButExp.
  simpl. rewrite <- HU, <- HN.
  destruct er as [[m|c m|m]|]; simpl; try done.
  - by destruct (Unknown e1).
  - destruct (expectsNotFound e1); simpl; [done|].
    by destruct (StatusNotFound =? c).
Qed.

(** *** Properties beyond the claims: the checks *)

(** X7. When [matchesOK] fails, the response is a single resource, the
    comparison has produced at least one difference, and the failures
    added are exactly the differences, one failure each and in their
    order; the terminal flag and the error are left as they were. *)
Theorem matches_failures_follow_differences (e : Expect)
    (a a' : assertions) :
  matchesOK e a = Some (false, a') ->
  exists res matchObj ds,
    r a = RUnstructured (Some res) /\
    matchObjectFromAny (Matches e) = Some matchObj /\
    compareResourceToMatchObject res matchObj = Some ds /\
    ds <> [] /\
    failures a' = failures a ++ (FMatchesNotEqual <$> ds) /\
    terminal a' = terminal a /\ err a' = err a.
Proof.
  intros H.
  apply matchesOK_false in H as (res & mo & ds & Hr & Hm & Hc & Hds & ->).
  exists res, mo, ds.
  rewrite foldl_Fail_failures, foldl_Fail_terminal.
  by destruct (foldl_Fail_rest (FMatchesNotEqual <$> ds) a) as (-> & _).
Qed.

(** X8. When [jsonOK] fails, the failures added are the engine's, in its
    order, and the terminal flag becomes the engine's flag, whatever it
    was before. *)
Theorem json_failures_verbatim (e : Expect) (a a' : assertions) :
  jsonOK e a = Some (false, a') ->
  exists j b,
    JSON e = Some j /\ jaOK (jsonNew ext j b) = false /\
    failures a' = failures a ++ (FJSON <$> jaFailures (jsonNew ext j b)) /\
    terminal a' = jaTerminal (jsonNew ext j b).
Proof.
  intros H. apply jsonOK_false in H as (j & b & Hj & _ & Hok & ->).
  exists j, b. by rewrite foldl_Fail_failures, foldl_Fail_terminal.
Qed.

(** X9. For a list outcome the engine is handed no bytes: the items are
    not serialized, the check does not depend on them, and it cannot
    panic. *)
Theorem json_list_gets_no_bytes (e : Expect) (j : JSONExpect)
    (a : assertions) (l : UnstructuredList) :
  JSON e = Some j ->
  r a = RUnstructuredList (Some l) ->
  let ja := jsonNew ext j None in
  verdict (jsonOK e a)
  = Some (jaOK ja,
          failures a ++ (if jaOK ja then [] else FJSON <$> jaFailures ja),
          if jaOK ja then terminal a else jaTerminal ja).
Proof.
  intros Hj Hr ja. unfold jsonOK, hasSubject. rewrite Hj, Hr. simpl.
  fold ja. destruct (jaOK ja); simpl; unfold Failures, Terminal.
  - by rewrite app_nil_r.
  - by rewrite foldl_Fail_failures, foldl_Fail_terminal.
Qed.

(** X10. [matchesOK] never fails a response that is not a single
    resource: a list is not compared with the matches document, whatever
    its items are. *)
Theorem matches_skips_lists (e : Expect) (a : assertions)
    (p : option UnstructuredList) (res : bool * assertions) :
  r a = RUnstructuredList p ->
  matchesOK e a = Some res -> res = (true, a).
Proof.
  intros Hr. unfold matchesOK, hasSubject. rewrite Hr.
  intros H. by repeat (case_match; simplify_eq/=).
Qed.

(** *** Properties beyond the claims: the evaluation as a whole *)

(** X11. The failures of a failed evaluation all come from one check,
    the first that fails.  The error and the length check record one
    failure, the structural match at least one.  The terminal flag is
    set by the error check or by the json engine only: a length or a
    structural mismatch always lets the attempt be retried. *)
Theorem OK_failures_from_one_check (eo : option Expect)
    (er : option error) (x : response) (a' : assertions) :
  OK (newAssertions eo er x) = Some (false, a') ->
  exists c,
    Forall (fun f => failureCheck f = c) (failures a') /\
    (c = ByError \/ c = ByLen -> length (failures a') = 1%nat) /\
    (c = ByMatches -> failures a' <> []) /\
    (terminal a' = true -> c = ByError \/ c = ByJSON).
Proof.
  intros H.
  apply OK_false_cases in H
    as [(f & -> & Hc)|[(f & -> & Hc & Ht)|[(ds & Hds & -> & Ht)
       |(j & b & _ & -> & Ht)]]].
  - exists ByError. split_and!; [by constructor|done|done|auto].
  - exists ByLen. rewrite Ht. split_and!; [by constructor|done|done|done].
  - exists ByMatches. rewrite Ht. split_and!; [|by intros [|]| |done].
    + apply Forall_fmap, Forall_true. done.
    + by destruct ds.
  - exists ByJSON. split_and!; [|by intros [|]|done|auto].
    apply Forall_fmap, Forall_true. done.
Qed.

(** X12. When the json engine never fails without a failure of its
    own, an evaluation passes exactly when it has recorded no failure. *)
Theorem OK_pass_iff_no_failure (eo : option Expect) (er : option error)
    (x : response) (ok : bool) (a' : assertions) :
  (forall j b, jaOK (jsonNew ext j b) = false ->
               jaFailures (jsonNew ext j b) <> []) ->
  OK (newAssertions eo er x) = Some (ok, a') ->
  (ok = true <-> failures a' = []).
Proof.
  intros Hengine H. split.
  - intros ->. by apply OK_true_no_failures in H as [? _].
  - intros Hnone. destruct ok; [done|]. exfalso.
    apply OK_false_cases in H
      as [(f & Hf & _)|[(f & Hf & _)|[(ds & Hds & Hf & _)
         |(j & b & Hok & Hf & _)]]]; rewrite Hf in Hnone; try done.
    + by destruct ds.
    + apply (Hengine j b Hok). by destruct (jaFailures _).
Qed.

(** X13. With a nil response, which the prerequisite resolution and the
    deletes pass, the evaluation cannot panic, and it passes exactly when
    the error is nil, or is the unknown-resource error and [unknown] is
    declared, or is a status error and either absence is expected or the
    code is 404. *)
Theorem OK_nil_response (e : Expect) (er : option error) :
  exists b a',
    OK (newAssertions (Some e) er RNil) = Some (b, a') /\
    (b = true <->
     er = None \/
     (exists msg, er = Some (ResourceUnknown msg) /\ Unknown e = true) \/
     (exists code msg, er = Some (StatusError code msg) /\
        (expectsNotFound e = true \/ code = StatusNotFound))).
Proof.
  rewrite (OK_nil e) by done.
  unfold swallowUnknown, swallowStatus, remainingError, andThen, finish.
  simpl. destruct er as [[m|c m|m]|]; simpl.
  - destruct (Unknown e) eqn:HU; simpl; eexists _, _; (split; [done|]).
    + split; [|done]. intros _. right; left. by exists m.
    + split; [done|]. intros [|[(? & ? & ?)|(? & ? & ? & _)]]; congruence.
  - destruct (expectsNotFound e) eqn:HN; simpl.
    { eexists _, _; split; [done|]. split; [|done]. intros _.
      right; right. exists c, m. auto. }
    destruct (StatusNotFound =? c) eqn:Hc; simpl;
      eexists _, _; (split; [done|]).
    + apply Z.eqb_eq in Hc. split; [|done]. intros _.
      right; right. exists c, m. auto.
    + apply Z.eqb_neq in Hc. split; [done|].
      intros [|[(? & ? & _)|(c' & m' & [= <- <-] & [|])]]; congruence.
  - eexists _, _; split; [done|]. split; [done|].
    intros [|[(? & ? & _)|(? & ? & ? & _)]]; congruence.
  - eexists _, _; split; [done|]. split; [|done]. auto.
Qed.

(** X14. A delete is judged by [unknown] and by whether absence is
    expected, and by nothing else of the expectation: two expectations
    that agree on these report the same failures for every error, and
    the evaluation cannot panic. *)
Theorem delete_reads_unknown_and_absence (e e' : Expect)
    (er : option error) :
  Unknown e = Unknown e' ->
  expectsNotFound e = expectsNotFound e' ->
  doDelete (Some e) er = doDelete (Some e') er /\
  doDeleteCollection (Some e) er = doDeleteCollection (Some e') er /\
  is_Some (doDelete (Some e) er).
Proof.
  intros HU HN. pose proof (OK_nil_congr e e' er HU HN) as H.
  unfold doDelete, doDeleteCollection.
  rewrite (OK_nil e), (OK_nil e') in * by done.
  destruct (finish _) as [b1 a1], (finish _) as [b2 a2]; simpl in H.
  destruct H as (<- & Hf & _). unfold Failures. rewrite Hf.
  by split_and!.
Qed.



(** X17. [notFoundOK] leaves the terminal flag and the error alone, and
    fails in two cases only, both with absence expected: a status error
    whose code is not 404, and, without a status error, a list that has
    items. *)
Theorem notFoundOK_decides (e : Expect) (a a' : assertions) (b : bool) :
  notFoundOK e a = Some (b, a') ->
  terminal a' = terminal a /\ err a' = err a /\
  (b = false <->
   expectsNotFound e = true /\
   ((exists code msg, err a = Some (StatusError code msg) /\
                      code <> StatusNotFound) \/
    ((forall code msg, err a <> Some (StatusError code msg)) /\
     exists l, r a = RUnstructuredList (Some l) /\ Items l <> []))).
Proof.
  unfold notFoundOK. intros H.
  assert (Hte : terminal a' = terminal a /\ err a' = err a).
  { repeat (case_match; simplify_eq/=); done. }
  destruct Hte as [Ht He]. split; [done|]. split; [done|].
  split.
  - intros ->. destruct (expectsNotFound e); [|done]. split; [done|].
    destruct (err a) as [[m|c m|m]|] eqn:Herr.
    2:{ left. exists c, m. split; [done|]. intros ->.
        rewrite Z.eqb_refl in H. simplify_eq/=. }
    all: right; (split; [done|]);
      destruct (r a) as [|p|[l|]]; try done;
      exists l; (split; [done|]); intros Hnil; by rewrite Hnil in H.
  - intros (HN & [(c & m & Herr & Hc)|(Hno & l & Hr & Hl)]);
      rewrite HN in H.
    + rewrite Herr in H. apply Z.eqb_neq in Hc.
      rewrite Z.eqb_sym, Hc in H. simpl in H. congruence.
    + rewrite Hr in H.
      rewrite bool_decide_eq_false_2 in H by (by destruct (Items l)).
      destruct (err a) as [[m|c m|m]|]; simpl in H; congruence.
Qed.

(** *** Properties beyond the claims: the comparator *)

(** X1. [typesComparable] is symmetric and reflexive, and it is not
    transitive: an int and a uint are each comparable with a string and
    not with one another. *)
Theorem typesComparable_symmetric_not_transitive :
  (forall a b, typesComparable a b = typesComparable b a) /\
  (forall a, typesComparable a a = true) /\
  typesComparable (VInt KInt 1) (VString "1") = true /\
  typesComparable (VString "1") (VUint KUint 1) = true /\
  typesComparable (VInt KInt 1) (VUint KUint 1) = false.
Proof.
  split; [apply typesComparable_sym|].
  split; [apply typesComparable_refl|]. done.
Qed.

(** X4. Every expected key that the resource lacks is reported as not
    present, under its path; so a comparison that finds no difference
    has found every expected key in the resource. *)
Theorem compare_reports_missing_keys (res : Unstructured)
    (m : gmap string value) (d : delta) :
  compareResourceToMatchObject res m = Some d ->
  (forall k v, m !! k = Some v -> Object res !! k = None ->
               NotPresent ("$." +:+ k) ∈ d) /\
  (d = [] -> forall k, is_Some (m !! k) -> is_Some (Object res !! k)).
Proof.
  intros Hc.
  assert (H1 : forall k v, m !! k = Some v -> Object res !! k = None ->
                           NotPresent ("$." +:+ k) ∈ d).
  { intros k v Hk Hn.
    apply (collect_missing_key "$" m (Object res) [] d k v); done. }
  split; [done|].
  intros -> k [v Hk].
  destruct (Object res !! k) eqn:Hn; [done|].
  specialize (H1 k v Hk Hn). by apply elem_of_nil in H1.
Qed.

(** X5. The comparison cannot panic when the expected mapping holds no
    string, nor when every integer of the resource has the Go type
    int. *)
Theorem compare_cannot_panic (res : Unstructured) (m : gmap string value) :
  stringFree (VMap m) = true \/ goIntOnly (VMap (Object res)) = true ->
  is_Some (compareResourceToMatchObject res m).
Proof.
  unfold compareResourceToMatchObject. intros [H|H].
  - by apply collect_stringFree_total.
  - by apply collect_goIntOnly_total.
Qed.

(** *** Properties beyond the claims: specifiers, manifests, actions *)

Lemma Cut_without_sep (s : string) (sep : ascii) :
  Contains s (String sep EmptyString) = false ->
  Cut s sep = (s, EmptyString, false).
Proof.
  induction s as [|c s IH]; simpl; [done|].
  intros [Hp Hc]%orb_false_iff.
  destruct (ascii_dec sep c) as [->|Hne]; [by destruct s|].
  rewrite bool_decide_eq_false_2 by congruence.
  by rewrite IH.
Qed.

Lemma Cut_at_first_sep (before after : string) (sep : ascii) :
  Contains before (String sep EmptyString) = false ->
  Cut (before +:+ String sep after) sep = (before, after, true).
Proof.
  induction before as [|c s IH]; simpl.
  - intros _. by rewrite bool_decide_eq_true_2.
  - intros [Hp Hc]%orb_false_iff.
    destruct (ascii_dec sep c) as [->|Hne]; [by destruct s|].
    rewrite bool_decide_eq_false_2 by congruence.
    change (String.append s (String sep after))
      with (s +:+ String sep after).
    by rewrite IH.
Qed.

Lemma Cut_before_without_sep (s : string) (sep : ascii) :
  Contains (fst (fst (Cut s sep))) (String sep EmptyString) = false.
Proof.
  induction s as [|c s IH]; simpl; [done|].
  case_bool_decide as Hc; simpl; [done|].
  destruct (Cut s sep) as [[b a] f]. simpl in *.
  destruct (ascii_dec sep c) as [->|Hne]; [done|]. by rewrite IH.
Qed.

(** X18. [splitKindName] cuts at the first slash: a kind without a slash
    followed by a slash and any name, with slashes or without, gives
    back that kind and that name; a specifier without a slash is a kind
    with the empty name; and the kind it returns never holds a slash. *)
Theorem splitKindName_round_trip (kind name : string) :
  Contains kind "/" = false ->
  splitKindName (kind +:+ "/" +:+ name) = (kind, name) /\
  splitKindName kind = (kind, EmptyString) /\
  (forall subject, Contains (fst (splitKindName subject)) "/" = false).
Proof.
  intros Hk. unfold splitKindName. split_and!.
  - change ("/" +:+ name) with (String "/" name).
    by rewrite Cut_at_first_sep.
  - by rewrite Cut_without_sep.
  - intros subject. pose proof (Cut_before_without_sep subject "/") as H.
    by destruct (Cut subject "/") as [[b a] f].
Qed.

(** X19. [unstructuredFromReader] returns, in the order of the
    documents, exactly the decoded documents that have a kind; a read or
    a decode that fails anywhere makes it return no object at all. *)
Theorem unstructuredFromReader_keeps_kinds (expand : string -> string)
    (decode : string -> option Unstructured)
    (GetKind : Unstructured -> string) (reads : list readResult) :
  unstructuredFromReader expand decode GetKind reads
  = filter (fun obj => GetKind obj <> EmptyString)
      <$> mapM (fun rd => match rd with
                          | ReadDoc raw => decode (expand raw)
                          | ReadErr => None
                          end) reads /\
  (forall objs,
      unstructuredFromReader expand decode GetKind reads = Some objs ->
      Forall (fun obj => GetKind obj <> EmptyString) objs).
Proof.
  assert (H : unstructuredFromReader expand decode GetKind reads
              = filter (fun obj => GetKind obj <> EmptyString)
                  <$> mapM (fun rd => match rd with
                                      | ReadDoc raw => decode (expand raw)
                                      | ReadErr => None
                                      end) reads).
  { induction reads as [|[raw|] reads IH]; simpl; [done| |done].
    rewrite IH. destruct (decode (expand raw)) as [obj|]; simpl; [|done].
    destruct (mapM _ reads) as [objs|]; simpl; [|done].
    rewrite filter_cons. by case_bool_decide; case_decide. }
  split; [done|]. rewrite H. intros objs Hobjs.
  destruct (mapM _ reads) as [all|]; simplify_eq/=.
  apply Forall_forall. intros obj Hin.
  by apply list_elem_of_filter in Hin as [? _].
Qed.

(** X20. When the prerequisite resolution fails, [runGet] reports its
    failure, which is one failure of the error check, and evaluates no
    tick. *)
Theorem runGet_prerequisite_short_circuit (e : option Expect)
    (resolveErr : option error) (a : assertions) (ticks : list outcome) :
  OK (newAssertions e resolveErr RNil) = Some (false, a) ->
  runGet e resolveErr ticks = Some (failures a) /\
  exists f, failures a = [f] /\ failureCheck f = ByError.
Proof.
  intros H. split.
  - unfold runGet. by rewrite H.
  - by apply OK_nil_false in H.
Qed.

(** X21. The loop stops at the first attempt that passes or is terminal:
    the ticks after it are not evaluated, whatever they hold, and the
    attempt counter is the number of attempts evaluated. *)
Theorem pollLoop_stops_at_decisive (e : option Expect)
    (pre post : list outcome) (o : outcome) (ok : bool)
    (af : assertions) (st : pollState) :
  Forall (retryable e) pre ->
  OK (newAssertions e (fst o) (snd o)) = Some (ok, af) ->
  ok || terminal af = true ->
  pollLoop e (pre ++ o :: post) st = pollLoop e (pre ++ [o]) st /\
  exists st', pollLoop e (pre ++ o :: post) st = Some st' /\
              attempts st' = (attempts st + length pre + 1)%nat /\
              current st' = af.
Proof.
  intros Hpre Ho Hstop.
  rewrite (pollLoop_last e pre post o ok af) by auto.
  rewrite (pollLoop_last e pre [] o ok af) by auto.
  split; [done|]. by eexists.
Qed.

(** With no resolution error the prerequisite passes; then [runCreate]
    goes on to the client call. *)
Lemma runCreate_step (e : option Expect) (call : option error * option Unstructured)
    (steps : list objectStep) :
  is_Some (OK (newAssertions e (fst call) (RUnstructured (snd call)))) ->
  runCreate e ((None, call) :: steps)
  = (callFailures e (None, call) ++.) <$> runCreate e steps.
Proof.
  intros [[ok a] Hcall]. destruct call as [callErr obj]. simpl in *.
  rewrite OK_nil_no_error. simpl. unfold callFailures. simpl.
  rewrite Hcall. by destruct (runCreate e steps).
Qed.

(** The prerequisite evaluation of a kind that does not resolve: it
    passes when [unknown] is declared, the error swallowed; else it
    fails terminally with one failure. *)
Lemma OK_unresolved (e : option Expect) (msg : string) :
  OK (newAssertions e (Some (ResourceUnknown msg)) RNil)
  = if declaresUnknown e
    then Some (true, newAssertions e None RNil)
    else Some (false,
               setTerminal
                 (Fail (newAssertions e (Some (ResourceUnknown msg)) RNil)
                    (unresolvedFailure e (ResourceUnknown msg))) true).
Proof.
  destruct e as [e|]; [|done]. rewrite (OK_nil e) by done.
  unfold swallowUnknown, declaresUnknown. simpl.
  by destruct (Unknown e).
Qed.


Lemma foldr_step_no_growth {A} (step : A -> option delta -> option delta)
    (l : list A) :
  Forall (fun x => step x None = None /\
                   forall d d0, step x (Some (d ++ d0))
                                = (d ++.) <$> step x (Some d0)) l ->
  foldr step (Some []) l = Some [] <->
  Forall (fun x => step x (Some []) = Some []) l.
Proof.
  induction 1 as [|x l [Hn Hs] _ IHl]; cbn [foldr]; [done|]. split.
  - intros H.
    destruct (foldr step (Some []) l) as [d0|] eqn:E;
      [|by rewrite Hn in H].
    specialize (Hs d0 []). rewrite app_nil_r in Hs.
    pose proof (eq_trans (eq_sym Hs) H) as H'.
    destruct (step x (Some [])) as [ds|] eqn:Es; simplify_eq/=.
    apply app_eq_nil in H' as [-> ->].
    constructor; [done|by apply IHl].
  - intros HF. inversion HF as [|? ? Hx Hl]; subst.
    by rewrite (proj2 IHl Hl).
Qed.

Lemma foldr_step_nothing {A} (step : A -> option delta -> option delta)
    (l : list A) (d' : delta) :
  Forall (fun x => step x None = None /\
                   forall d', step x (Some []) = Some d' -> d' = []) l ->
  foldr step (Some []) l = Some d' -> d' = [].
Proof.
  intros Hl. revert d'.
  induction Hl as [|x l [Hn Hs] _ IHl]; cbn [foldr]; intros d' H.
  { by injection H as <-. }
  destruct (foldr step (Some []) l) as [d0|] eqn:E;
    [|by rewrite Hn in H].
  rewrite (IHl d0 eq_refl) in H. by apply Hs.
Qed.

Ltac scalar_facts :=
  repeat match goal with
         | H : negb _ = false |- _ => apply negb_false_iff in H
         | H : negb _ = true |- _ => apply negb_true_iff in H
         | H : andb _ _ = true |- _ => apply andb_true_iff in H as [? ?]
         | H : bool_decide _ = true |- _ => apply bool_decide_eq_true_1 in H
         | H : bool_decide _ = false |- _ => apply bool_decide_eq_false_1 in H
         | H : Z.eqb _ _ = true |- _ => apply Z.eqb_eq in H
         end; simplify_eq.

Lemma plain_lookup (m : gmap string value) (k : string) (v : value) :
  plain (VMap m) = true -> m !! k = Some v -> plain v = true.
Proof. apply (map_fold_all_lookup plain). Qed.

Lemma plain_elems (l : list value) :
  plain (VList l) = true -> Forall (fun v => plain v = true) l.
Proof.
  simpl. rewrite forallb_forall. intros H. apply Forall_forall.
  intros v Hv. by apply H, list_elem_of_In.
Qed.

(** On plain documents, a comparison that adds no difference has found
    the expected document in the actual one. *)
Lemma collect_nothing_included (m : value) :
  forall s fp,
    plain m = true -> plain s = true ->
    collectFieldDifferences fp m s [] = Some [] -> included m s.
Proof.
  induction m as [|b|k n|k n|k f|k re im|ms|mm IH|ml IH]
    using value_ind_nested; intros s fp Hm Hs H.
  1-7: destruct s; try destruct k; try destruct k0;
       simpl in H, Hm, Hs; unfold Add in H;
       repeat case_match; simplify_eq/=; scalar_facts; by constructor.
  - destruct s as [| | | | | | |sm|]; try (simpl in H; unfold Add in H; done).
    simpl in H. rewrite map_fold_foldr in H.
    apply foldr_step_no_growth in H.
    + rewrite Forall_forall in H. constructor. intros k mv Hk.
      pose proof (H (k, mv) (proj2 (elem_of_map_to_list _ _ _) Hk)) as Hkv.
      simpl in Hkv. destruct (sm !! k) as [sv|] eqn:Hsv; [|done].
      exists sv. split; [done|].
      eapply (IH k mv Hk sv);
        [exact (plain_lookup _ _ _ Hm Hk)|exact (plain_lookup _ _ _ Hs Hsv)
        |exact Hkv].
    + apply Forall_forall. intros [k v] Hkv. split; [done|].
      intros d1 d0. simpl. destruct (sm !! k) as [sv|].
      * rewrite (collectFieldDifferences_acc v _ sv (d1 ++ d0)),
          (collectFieldDifferences_acc v _ sv d0).
        destruct (collectFieldDifferences _ v sv []); simpl; [|done].
        by rewrite app_assoc.
      * unfold Add. simpl. by rewrite app_assoc.
  - destruct s as [| | | | | | | |sl]; try (simpl in H; unfold Add in H; done).
    apply plain_elems in Hm, Hs. simpl in H.
    destruct (bool_decide (length ml = length sl)) eqn:Hlen; simpl in H;
      [|unfold Add in H; done].
    apply bool_decide_eq_true in Hlen. constructor.
    match type of H with
    | context [?g 0%nat ml sl []] =>
        assert (Hgrow : forall l sl x d d',
                   g x l sl d = Some d' -> exists ds, d' = d ++ ds);
        [|assert (Hgo : forall sl x,
                     length ml = length sl ->
                     Forall (fun v => plain v = true) sl ->
                     g x ml sl [] = Some [] -> Forall2 included ml sl)]
    end.
    + induction l as [|v l IHl]; intros sl' x d d' Hd; simpl in Hd.
      { exists []. rewrite app_nil_r. congruence. }
      destruct sl' as [|sv sl']; [done|].
      destruct (collectFieldDifferences _ v sv d) as [d0|] eqn:Hv; [|done].
      apply collectFieldDifferences_grows in Hv as [ds0 ->].
      apply IHl in Hd as [ds ->]. exists (ds0 ++ ds). by rewrite app_assoc.
    + clear Hlen H Hs. induction IH as [|v l Hv _ IHl]; intros sl' x Hlen Hs H.
      { destruct sl'; [constructor|done]. }
      destruct sl' as [|sv sl']; [done|].
      apply Forall_cons in Hm as [Hmv Hm], Hs as [Hsv Hs]. simpl in H.
      destruct (collectFieldDifferences _ v sv []) as [d0|] eqn:Hd0; [|done].
      pose proof (Hgrow _ _ _ _ _ H) as [ds Hds].
      symmetry in Hds. apply app_eq_nil in Hds as [-> ->].
      constructor; [by eapply Hv|].
      eapply (IHl Hm); [simpl in Hlen; lia|done|done].
    + by eapply Hgo.
Qed.

(** On plain documents, when the expected document is found in the
    actual one, a comparison that does not panic adds no difference. *)
Lemma included_collect_nothing (m : value) :
  forall s fp d',
    plain m = true -> plain s = true -> included m s ->
    collectFieldDifferences fp m s [] = Some d' -> d' = [].
Proof.
  induction m as [|b|k n|k n|k f|k re im|ms|mm IH|ml IH]
    using value_ind_nested; intros s fp d' Hm Hs Hinc H.
  1-7: inversion Hinc; subst; try destruct k; try destruct k';
       try (by vm_compute in Hm); try (by vm_compute in Hs);
       simpl in H; unfold Add in H;
       rewrite ?bool_decide_eq_true_2 in H by done;
       repeat match goal with
              | E : SFeqb _ _ = true |- _ => rewrite E in H; clear E
              | E : Atoi _ = Some _ |- _ => rewrite E in H; clear E
              end;
       rewrite ?Z.eqb_refl in H; simpl in H; congruence.
  - inversion Hinc as [| | | | | | |? sm Hall|]; subst.
    simpl in H. rewrite map_fold_foldr in H.
    eapply foldr_step_nothing; [|exact H].
    apply Forall_forall. intros [k v] Hkv%elem_of_map_to_list.
    split; [done|]. intros d0. simpl.
    destruct (Hall k v Hkv) as (sv & Hsv & Hv). rewrite Hsv.
    apply (IH k v Hkv sv);
      [exact (plain_lookup _ _ _ Hm Hkv)|exact (plain_lookup _ _ _ Hs Hsv)
      |done].
  - inversion Hinc as [| | | | | | | |? sl Hall]; subst.
    apply plain_elems in Hm, Hs. simpl in H.
    rewrite (Forall2_length _ _ _ Hall) in H.
    rewrite bool_decide_eq_true_2 in H by done. simpl in H.
    clear Hinc. revert H. generalize 0%nat. revert d'.
    induction Hall as [|v sv l sl Hv Hall IHl]; intros d' x H.
    { simpl in H. congruence. }
    apply Forall_cons in IH as [IHv IH], Hm as [Hmv Hm], Hs as [Hsv Hs].
    simpl in H.
    destruct (collectFieldDifferences _ v sv []) as [d0|] eqn:Hd0; [|done].
    apply (IHv sv _ _ Hmv Hsv Hv) in Hd0 as ->.
    by eapply IHl.
Qed.

(** X6. On plain documents (no unsigned integer, complex number or
    int16), the comparison adds no difference only if the expected
    document is found in the actual one: every expected key is there
    at every depth, sequences correspond element by element, and
    scalars are equal up to the conversions between integers and
    strings.  Conversely, when the
    expected document is found in the actual one, a comparison that does
    not panic adds no difference; it does not panic when the expected
    document holds no string or every integer of the actual one has the
    Go type [int].  Keys of the actual document that are not expected
    play no part. *)
Theorem no_difference_iff_included (fp : string) (m s : value) (d : delta) :
  plain m = true -> plain s = true ->
  (collectFieldDifferences fp m s d = Some d -> included m s) /\
  (included m s -> is_Some (collectFieldDifferences fp m s d) ->
   collectFieldDifferences fp m s d = Some d) /\
  (stringFree m = true \/ goIntOnly s = true ->
   (collectFieldDifferences fp m s d = Some d <-> included m s)).
Proof.
  intros Hm Hs.
  assert (H1 : collectFieldDifferences fp m s d = Some d -> included m s).
  { rewrite collectFieldDifferences_acc.
    destruct (collectFieldDifferences fp m s []) as [ds|] eqn:Hds;
      simpl; [|done].
    intros [= Hd]. rewrite <- (app_nil_r d) in Hd at 2.
    apply app_inv_head in Hd as ->.
    by apply (collect_nothing_included m s fp). }
  assert (H2 : included m s ->
               is_Some (collectFieldDifferences fp m s d) ->
               collectFieldDifferences fp m s d = Some d).
  { intros Hinc. rewrite collectFieldDifferences_acc.
    destruct (collectFieldDifferences fp m s []) as [ds|] eqn:Hds;
      simpl; [|by intros [? ?]].
    intros _.
    rewrite (included_collect_nothing m s fp ds Hm Hs Hinc Hds).
    by rewrite app_nil_r. }
  split_and!; [done|done|].
  intros Hsafe. split; [done|]. intros Hinc. apply H2; [done|].
  destruct Hsafe as [Hsf|Hgo].
  - by apply collect_stringFree_total.
  - by apply collect_goIntOnly_total.
Qed.


(** *** Properties beyond the claims: deleting *)

Lemma doDelete_total (e : option Expect) (callErr : option error) :
  is_Some (doDelete e callErr).
Proof.
  unfold doDelete. destruct e as [e|].
  - rewrite (OK_nil e) by done. by destruct (finish _) as [ok a].
  - unfold OK. simpl. by destruct callErr.
Qed.

(** X23. Which call [runDelete] makes for a resource specifier.  Once
    the kind resolves, a kind alone, and also a kind followed by a slash
    and nothing else, deletes the whole collection, and the answer of a
    single delete plays no part; a kind, a slash and a name delete that
    one resource.  When the prerequisite evaluation fails, its failures
    are reported and nothing is deleted; for a kind that does not resolve
    this is the case exactly when [unknown] is not declared, and with
    [unknown: true] the delete is made as for a kind that resolves. *)
Theorem runDelete_kind_alone_deletes_collection (e : option Expect)
    (kind name : string) (collectionErr deleteErr : option error) :
  Contains kind "/" = false ->
  runDeleteSubject e kind None collectionErr deleteErr
  = doDeleteCollection e collectionErr /\
  runDeleteSubject e (kind +:+ "/") None collectionErr deleteErr
  = doDeleteCollection e collectionErr /\
  (name <> EmptyString ->
   runDeleteSubject e (kind +:+ "/" +:+ name) None collectionErr deleteErr
   = doDelete e deleteErr) /\
  (forall subject resolveErr a,
      OK (newAssertions e resolveErr RNil) = Some (false, a) ->
      runDeleteSubject e subject resolveErr collectionErr deleteErr
      = Some (failures a)) /\
  (forall subject msg,
      runDeleteSubject e subject (Some (ResourceUnknown msg))
        collectionErr deleteErr
      = if declaresUnknown e
        then runDeleteSubject e subject None collectionErr deleteErr
        else Some [unresolvedFailure e (ResourceUnknown msg)]).
Proof.
  intros Hk. unfold runDeleteSubject, splitKindName. split_and!.
  - rewrite Cut_without_sep by done. by rewrite OK_nil_no_error.
  - change ("/" : string) with (String "/" EmptyString) at 1.
    rewrite Cut_at_first_sep by done. by rewrite OK_nil_no_error.
  - intros Hname. change ("/" +:+ name) with (String "/" name).
    rewrite Cut_at_first_sep by done. rewrite OK_nil_no_error. simpl.
    by rewrite bool_decide_eq_false_2.
  - intros subject resolveErr a Ha.
    destruct (Cut subject "/") as [[k n] f]. by rewrite Ha.
  - intros subject msg. destruct (Cut subject "/") as [[k n] f].
    rewrite OK_unresolved, OK_nil_no_error.
    by destruct (declaresUnknown e).
Qed.

Lemma runDeleteObjects_step (e : option Expect) (callErr : option error)
    (steps : list (option error * option error)) :
  runDeleteObjects e ((None, callErr) :: steps)
  = fs ← doDelete e callErr; (fs ++.) <$> runDeleteObjects e steps.
Proof.
  simpl. rewrite OK_nil_no_error. simpl.
  destruct (doDelete e callErr); simpl; [|done].
  by destruct (runDeleteObjects e steps).
Qed.

(** X24. [runDelete] on a manifest deletes the objects in order and
    applies the one expectation to each of them.  As long as every kind
    resolves, what it reports is what the single deletes report, one
    object after the other, and it cannot panic.  What stops it is a
    prerequisite evaluation that fails: its failures are reported last,
    and neither that object nor any later one is deleted.  For a kind
    that does not resolve this is the case exactly when [unknown] is not
    declared; with [unknown: true] that object's delete is made and the
    loop goes on. *)
Theorem runDelete_manifest_reports_each_delete (e : option Expect)
    (pre : list (option error * option error)) :
  Forall (fun step => fst step = None) pre ->
  runDeleteObjects e pre
  = @concat failure <$> mapM (fun step => doDelete e (snd step)) pre /\
  is_Some (runDeleteObjects e pre) /\
  (forall resolveErr callErr post a,
      OK (newAssertions e resolveErr RNil) = Some (false, a) ->
      runDeleteObjects e (pre ++ (resolveErr, callErr) :: post)
      = (.++ failures a) <$> runDeleteObjects e pre) /\
  (forall msg callErr post,
      runDeleteObjects e (pre ++ (Some (ResourceUnknown msg), callErr) :: post)
      = if declaresUnknown e
        then runDeleteObjects e (pre ++ (None, callErr) :: post)
        else (.++ [unresolvedFailure e (ResourceUnknown msg)])
               <$> runDeleteObjects e pre).
Proof.
  intros Hpre.
  assert (H1 : forall rest,
             runDeleteObjects e (pre ++ rest)
             = fs ← runDeleteObjects e pre;
               (fs ++.) <$> runDeleteObjects e rest).
  { intros rest. induction Hpre as [|[rErr callErr] pre Hr _ IH].
    { simpl. by destruct (runDeleteObjects e rest). }
    simpl in Hr. subst rErr.
    rewrite <- app_comm_cons, !runDeleteObjects_step, IH.
    destruct (doDelete e callErr); simpl; [|done].
    destruct (runDeleteObjects e pre); simpl; [|done].
    destruct (runDeleteObjects e rest); simpl; [|done].
    by rewrite app_assoc. }
  assert (H3 : forall resolveErr callErr post a,
             OK (newAssertions e resolveErr RNil) = Some (false, a) ->
             runDeleteObjects e (pre ++ (resolveErr, callErr) :: post)
             = (.++ failures a) <$> runDeleteObjects e pre).
  { intros resolveErr callErr post a Ha. rewrite H1. simpl.
    rewrite Ha. simpl. by destruct (runDeleteObjects e pre). }
  split_and!; [| |done|].
  - clear H1 H3.
    induction Hpre as [|[rErr callErr] pre Hr _ IH]; [done|].
    simpl in Hr. subst rErr. rewrite runDeleteObjects_step, IH. simpl.
    destruct (doDelete e callErr); simpl; [|done].
    by destruct (mapM _ pre).
  - clear H1 H3.
    induction Hpre as [|[rErr callErr] pre Hr _ [fs IH]]; [done|].
    simpl in Hr. subst rErr. rewrite runDeleteObjects_step, IH.
    destruct (doDelete_total e callErr) as [fs0 ->]. done.
  - intros msg callErr post.
    destruct (declaresUnknown e) eqn:Hu.
    + rewrite !H1. simpl. by rewrite OK_unresolved, Hu, OK_nil_no_error.
    + rewrite (H3 _ callErr post _ (eq_trans (OK_unresolved e msg)
                                      ltac:(by rewrite Hu))).
      done.
Qed.

(** *** Properties beyond the claims: the order of the keys *)

Lemma collect_noncomparable (fp : string) (m s : value) (d : delta) :
  typesComparable m s = false ->
  collectFieldDifferences fp m s d = Some (Add d (NonComparable fp m s)).
Proof.
  intros H. destruct m; simpl; by rewrite ?H.
Qed.

Lemma collect_list (fp : string) (ml sl : list value) (d : delta) :
  collectFieldDifferences fp (VList ml) (VList sl) d
  = if negb (bool_decide (length ml = length sl))
    then Some (Add d (DifferentLengths fp (length ml) (length sl)))
    else collectElements fp 0 ml sl d.
Proof. reflexivity. Qed.

Lemma collectElements_acc (fp : string) (ml : list value) :
  forall x sl d,
    collectElements fp x ml sl d
    = (d ++.) <$> collectElements fp x ml sl [].
Proof.
  induction ml as [|v ml IH]; intros x sl d; simpl.
  { by rewrite app_nil_r. }
  destruct sl as [|sv sl]; [done|].
  rewrite (collectFieldDifferences_acc v _ sv d).
  destruct (collectFieldDifferences _ v sv []) as [d0|]; simpl; [|done].
  rewrite (IH _ sl (d ++ d0)), (IH _ sl d0).
  destruct (collectElements fp (S x) ml sl []); simpl; [|done].
  by rewrite app_assoc.
Qed.

Lemma collect_map (fp : string) (mm sm : gmap string value) (d : delta) :
  collectFieldDifferences fp (VMap mm) (VMap sm) d
  = foldr (uncurry (collectKey fp sm)) (Some d) (map_to_list mm).
Proof. simpl. by rewrite map_fold_foldr. Qed.

Lemma collectKey_acc (fp : string) (sm : gmap string value)
    (kv : string * value) :
  uncurry (collectKey fp sm) kv None = None /\
  forall d d0, uncurry (collectKey fp sm) kv (Some (d ++ d0))
               = (d ++.) <$> uncurry (collectKey fp sm) kv (Some d0).
Proof.
  destruct kv as [k v]. split; [done|]. intros d d0. simpl.
  destruct (sm !! k) as [sv|].
  - rewrite (collectFieldDifferences_acc _ _ sv (d ++ d0)),
      (collectFieldDifferences_acc _ _ sv d0).
    destruct (collectFieldDifferences _ _ sv []); simpl; [|done].
    by rewrite app_assoc.
  - unfold Add. simpl. by rewrite app_assoc.
Qed.

(** A loop whose steps only append gives, in whatever order it takes
    them, the same additions up to their order. *)
Lemma foldr_step_Permutation {A}
    (step : A -> option (list difference) -> option (list difference))
    (l l' : list A) :
  (forall x, step x None = None /\
             forall d d0, step x (Some (d ++ d0))
                          = (d ++.) <$> step x (Some d0)) ->
  l ≡ₚ l' ->
  option_Forall2 (≡ₚ) (foldr step (Some []) l) (foldr step (Some []) l').
Proof.
  intros Hstep.
  assert (Hone : forall x d, step x (Some d) = (d ++.) <$> step x (Some [])).
  { intros x d. destruct (Hstep x) as [_ Hs]. specialize (Hs d []).
    by rewrite app_nil_r in Hs. }
  assert (Hnone : forall x, step x None = None) by (intros x; apply Hstep).
  assert (Hresp : forall x r r',
             option_Forall2 (≡ₚ) r r' ->
             option_Forall2 (≡ₚ) (step x r) (step x r')).
  { intros x r r' [d1 d2 Hd|].
    - rewrite (Hone x d1), (Hone x d2).
      destruct (step x (Some [])) as [c|]; simpl; constructor.
      by rewrite Hd.
    - rewrite Hnone. constructor. }
  induction 1 as [|x l l' _ IH|x y l|l l' l'' _ IH1 _ IH2]; cbn [foldr].
  - by constructor.
  - by apply Hresp.
  - destruct (foldr step (Some []) l) as [d|].
    2: { rewrite !Hnone. constructor. }
    rewrite (Hone x d), (Hone y d).
    destruct (step x (Some [])) as [cx|] eqn:Ex,
             (step y (Some [])) as [cy|] eqn:Ey; simpl.
    + rewrite (Hone y (d ++ cx)), (Hone x (d ++ cy)), Ex, Ey. simpl.
      constructor. rewrite <- !app_assoc. f_equiv.
      apply Permutation_app_comm.
    + rewrite (Hone y (d ++ cx)), Ey, Hnone. constructor.
    + rewrite (Hone x (d ++ cy)), Ex, Hnone. constructor.
    + rewrite !Hnone. constructor.
  - etrans; eauto.
Qed.

Lemma collectsKeys_app (fp : string) (sm : gmap string value)
    (l1 l2 : list (string * value)) (d : delta) (r1 r : option delta) :
  collectsKeys fp sm l1 d r1 ->
  match r1 with
  | Some d1 => collectsKeys fp sm l2 d1 r
  | None => r = None
  end ->
  collectsKeys fp sm (l1 ++ l2) d r.
Proof.
  induction 1 as [fp sm d|fp sm k v order d r1 Hk _ IH
                 |fp sm k v sv order d d1 r1 Hk Hv _ IH
                 |fp sm k v sv order d Hk Hv]; intros Hrest; simpl.
  - done.
  - apply keys_missing; [done|]. by apply IH.
  - eapply keys_present; [done|done|]. by apply IH.
  - subst r. by eapply keys_panic.
Qed.

Lemma scalar_is_a_run (fp : string) (m s : value) (d : delta) :
  composite m = false ->
  collects fp m s d (collectFieldDifferences fp m s d).
Proof.
  intros Hm. destruct (typesComparable m s) eqn:E.
  - by apply collects_scalar.
  - rewrite collect_noncomparable by done. by apply collects_noncomparable.
Qed.

(** The function is one of the runs. *)
Lemma collect_is_a_run (m : value) :
  forall fp s d, collects fp m s d (collectFieldDifferences fp m s d).
Proof.
  induction m as [|b|k n|k n|k f|k re im|ms|mm IH|ml IH]
    using value_ind_nested; intros fp s d.
  1-7: by apply scalar_is_a_run.
  - destruct s as [| | | | | | |sm|];
      try (rewrite collect_noncomparable by done;
           by apply collects_noncomparable).
    rewrite collect_map.
    apply (collects_map _ _ _ _ (reverse (map_to_list mm)));
      [apply reverse_Permutation|].
    assert (Hl : Forall (fun kv : string * value =>
                           mm !! fst kv = Some (snd kv)) (map_to_list mm)).
    { apply Forall_forall. intros [k v]. apply elem_of_map_to_list. }
    induction Hl as [|[k v] l Hkv _ IHl]; [apply keys_done|].
    rewrite reverse_cons. cbn [foldr].
    eapply collectsKeys_app; [exact IHl|].
    destruct (foldr _ (Some d) l) as [d1|]; [|done]. simpl.
    destruct (sm !! k) as [sv|] eqn:Hsv.
    + destruct (collectFieldDifferences _ v sv d1) as [d2|] eqn:Hv.
      * eapply keys_present; [done| |apply keys_done].
        rewrite <- Hv. by apply (IH k v).
      * eapply keys_panic; [done|]. rewrite <- Hv. by apply (IH k v).
    + apply keys_missing; [done|]. apply keys_done.
  - destruct s as [| | | | | | | |sl];
      try (rewrite collect_noncomparable by done;
           by apply collects_noncomparable).
    rewrite collect_list. case_bool_decide as Hlen; simpl.
    2: { by apply collects_lengths. }
    apply collects_list; [done|].
    generalize 0%nat. revert sl d Hlen.
    induction IH as [|v l Hv _ IHl]; intros sl d Hlen x; simpl.
    { apply elements_done. }
    destruct sl as [|sv sl]; [done|]. simpl in Hlen.
    destruct (collectFieldDifferences _ v sv d) as [d1|] eqn:Hd1.
    + eapply elements_next; [|apply IHl; lia]. rewrite <- Hd1. apply Hv.
    + apply elements_panic. rewrite <- Hd1. apply Hv.
Qed.

Lemma addedUpToOrder_acc (d : delta) (c : option delta) :
  addedUpToOrder d ((d ++.) <$> c) c.
Proof. destruct c as [ds|]; simpl; [by exists ds|done]. Qed.

Lemma added_missing (d : delta) (r c : option delta) (x : difference) :
  addedUpToOrder (Add d x) r c ->
  addedUpToOrder d r ((fun c0 => Add c0 x) <$> c).
Proof.
  destruct r as [d'|], c as [c|]; simpl; try done.
  intros (ds & -> & Hds). exists (x :: ds). unfold Add.
  split; [by rewrite <- app_assoc|].
  rewrite <- Hds. apply Permutation_cons_append.
Qed.

Lemma added_after (d d1 c1 : delta) (r c : option delta) :
  addedUpToOrder d (Some d1) (Some c1) ->
  addedUpToOrder d1 r c ->
  addedUpToOrder d r ((c1 ++.) <$> c) /\
  addedUpToOrder d r ((.++ c1) <$> c).
Proof.
  intros (e1 & -> & He1).
  destruct r as [d'|], c as [c|]; simpl; try done.
  intros (ds & -> & Hds).
  split; exists (e1 ++ ds); (split; [by rewrite app_assoc|]).
  - by rewrite He1, Hds.
  - rewrite He1, Hds. apply Permutation_app_comm.
Qed.

Lemma addedUpToOrder_Permutation (d : delta) (r c c' : option delta) :
  addedUpToOrder d r c -> option_Forall2 (≡ₚ) c c' ->
  addedUpToOrder d r c'.
Proof.
  intros H Hp. destruct Hp as [c1 c2 Hc|]; destruct r as [d'|];
    unfold addedUpToOrder in *; try done.
  destruct H as (ds & -> & Hds). exists ds. split; [done|].
  by rewrite Hds.
Qed.

(** Every run adds what the function adds, up to the order, and panics
    when the function does. *)
Lemma runs_agree (m : value) :
  forall fp s d r,
    collects fp m s d r ->
    addedUpToOrder d r (collectFieldDifferences fp m s []).
Proof.
  induction m as [|b|k n|k n|k f|k re im|ms|mm IH|ml IH]
    using value_ind_nested; intros fp s d r Hrun.
  1-7: inversion Hrun as [? ? ? ? Hc|? ? ? ? Hc _| | |]; subst;
       [rewrite collect_noncomparable by done; by eexists
       |rewrite collectFieldDifferences_acc; apply addedUpToOrder_acc].
  - inversion Hrun as [? ? ? ? Hc|? ? ? ? _ Hc|? ? sm ? order ? Hperm Hkeys
                      | |]; subst.
    + rewrite collect_noncomparable by done. by eexists.
    + done.
    + rewrite collect_map.
      assert (Hk : addedUpToOrder d r
                     (foldr (uncurry (collectKey fp sm)) (Some []) order)).
      { assert (Hin : Forall (fun kv : string * value =>
                                mm !! fst kv = Some (snd kv)) order).
        { apply Forall_forall. intros [k v] Hkv.
          apply elem_of_map_to_list. by rewrite <- Hperm. }
        clear Hperm Hrun.
        induction Hkeys as [fp sm d|fp sm k v order d r Hk _ IHk
                           |fp sm k v sv order d d1 r Hk Hv _ IHk
                           |fp sm k v sv order d Hk Hv]; cbn [foldr].
        - exists []. by rewrite app_nil_r.
        - apply Forall_cons in Hin as [_ Hin]. specialize (IHk Hin).
          apply added_missing in IHk.
          destruct (foldr (uncurry (collectKey fp sm)) (Some []) order)
            as [c|]; simpl in *;
            by rewrite ?Hk.
        - apply Forall_cons in Hin as [Hkv Hin]. specialize (IHk Hin).
          apply (IH k v Hkv) in Hv.
          destruct (collectFieldDifferences (fp +:+ "." +:+ k) v sv [])
            as [c1|] eqn:Hc1; [|done].
          destruct (added_after _ _ _ _ _ Hv IHk) as [_ Hadd].
          destruct (foldr (uncurry (collectKey fp sm)) (Some []) order)
            as [c|]; simpl in *;
            [|done].
          by rewrite Hk, (collectFieldDifferences_acc v _ sv c), Hc1.
        - apply Forall_cons in Hin as [Hkv Hin].
          apply (IH k v Hkv) in Hv.
          destruct (collectFieldDifferences (fp +:+ "." +:+ k) v sv [])
            as [c1|] eqn:Hc1; [done|].
          destruct (foldr (uncurry (collectKey fp sm)) (Some []) order)
            as [c|]; simpl; [|done].
          by rewrite Hk, (collectFieldDifferences_acc v _ sv c), Hc1. }
      pose proof (foldr_step_Permutation (uncurry (collectKey fp sm))
                    order (map_to_list mm) (collectKey_acc fp sm) Hperm)
        as Hp.
      by eapply addedUpToOrder_Permutation.
  - inversion Hrun as [? ? ? ? Hc|? ? ? ? _ Hc| |? ? sl ? Hlen
                      |? ? sl ? ? Hlen Hel]; subst.
    + rewrite collect_noncomparable by done. by eexists.
    + done.
    + rewrite collect_list, bool_decide_eq_false_2 by done. by eexists.
    + rewrite collect_list, bool_decide_eq_true_2 by done. simpl.
      clear Hrun Hlen. revert Hel. generalize 0%nat. revert sl d r.
      induction IH as [|v l Hv _ IHl]; intros sl d r x Hel;
        inversion Hel as [|? ? ? sv ? sl' ? d1 ? Hhd Htl
                         |? ? ? sv ? sl' ? Hhd]; subst; simpl.
      * exists []. by rewrite app_nil_r.
      * apply Hv in Hhd.
        destruct (collectFieldDifferences _ v sv []) as [c1|]; [|done].
        apply IHl in Htl. rewrite (collectElements_acc fp l _ sl' c1).
        by destruct (added_after _ _ _ _ _ Hhd Htl) as [Hadd _].
      * apply Hv in Hhd.
        by destruct (collectFieldDifferences _ v sv []).
Qed.

(** X2. A run of the comparison only appends to the delta it is given.
    In whatever order it visits the keys of the expected mappings, what
    it appends is, up to the order of the differences, what any run on
    the empty delta leaves; and it panics exactly when that run does. *)
Theorem delta_only_grows (fp : string) (m s : value) (d : delta)
    (r r0 : option delta) :
  collects fp m s d r -> collects fp m s [] r0 ->
  match r, r0 with
  | Some d', Some ds0 => exists ds, d' = d ++ ds /\ ds ≡ₚ ds0
  | None, None => True
  | _, _ => False
  end.
Proof.
  intros Hr%runs_agree Hr0%runs_agree. unfold addedUpToOrder in *.
  destruct r as [d'|], r0 as [ds0|],
    (collectFieldDifferences fp m s []) as [c|]; try done.
  destruct Hr as (ds & -> & Hds), Hr0 as (ds' & -> & Hds').
  exists ds. split; [done|]. simpl. by rewrite Hds, Hds'.
Qed.

(** X3. The comparison reads the actual resource at the expected keys
    only: on two resources that agree on every key of the expected
    mapping, any two runs leave the same differences up to their order,
    or both panic; so a key that only the resource has is ignored. *)
Theorem compare_reads_expected_keys_only (m obj obj' : gmap string value)
    (r r' : option delta) :
  (forall k, is_Some (m !! k) -> obj !! k = obj' !! k) ->
  compares {| Object := obj |} m r ->
  compares {| Object := obj' |} m r' ->
  option_Forall2 (≡ₚ) r r'.
Proof.
  unfold compares. simpl. intros Hagree Hr%runs_agree Hr'%runs_agree.
  rewrite (collect_reads_expected_keys "$" m obj obj' [] Hagree) in Hr.
  unfold addedUpToOrder in *.
  destruct r as [d|], r' as [d'|],
    (collectFieldDifferences "$" (VMap m) (VMap obj') []) as [c|];
    try done; try by constructor.
  destruct Hr as (ds & -> & Hds), Hr' as (ds' & -> & Hds').
  constructor. simpl. by rewrite Hds, Hds'.
Qed.


End Evaluator.

(** ** Closed instances *)

(** C1, counterexample.  An expectation that declares nothing passes on a
    non-nil action error, the status error with code 404; and an
    expectation that declares a json assertion and none of the five named
    fields fails on a nil action error when the engine fails. *)
Lemma OK_undeclared_passes_on_404 :
  undeclared declareNothing /\
  Some (StatusError 404 "pods not found") <> None /\
  OK (standIns passingEngine)
    (newAssertions (Some declareNothing)
       (Some (StatusError 404 "pods not found")) (RUnstructured None))
  = Some (true,
          newAssertions (Some declareNothing) None (RUnstructured None)) /\
  exists a',
    OK (standIns failingEngine)
      (newAssertions (Some (declareJSON (MkJSONExpect VNil))) None
         (RUnstructured (Some (resource ∅))))
    = Some (false, a').
Proof.
  split; [by repeat split|]. split; [done|]. split; [done|]. by eexists.
Qed.

(** C1, instance: an expectation that declares nothing, and an error that
    is not a status error. *)
Lemma OK_undeclared_witness :
  undeclared declareNothing /\
  exists b a',
    OK (standIns passingEngine)
      (newAssertions (Some declareNothing)
         (Some (OtherError "connection refused")) RNil) = Some (b, a') /\
    (b = true <->
     Some (OtherError "connection refused") = None \/
     exists msg,
       Some (OtherError "connection refused")
       = Some (StatusError StatusNotFound msg)).
Proof.
  assert (H : undeclared declareNothing) by by repeat split.
  split; [exact H|].
  exact (OK_undeclared (standIns passingEngine)
           declareNothing (Some (OtherError "connection refused")) RNil H).
Defined.

(** C2, instance: [notfound: true] and a status error with code 500. *)
Lemma absence_expected_swallows_status_witness :
  expectsNotFound declareNotFound = true /\
  OK (standIns passingEngine)
    (newAssertions (Some declareNotFound)
       (Some (StatusError 500 "internal error")) (RUnstructured None))
  = Some (true,
          newAssertions (Some declareNotFound) None (RUnstructured None)) /\
  failures (newAssertions (Some declareNotFound) None (RUnstructured None))
  = [].
Proof.
  split; [reflexivity|].
  apply (absence_expected_swallows_status (standIns passingEngine) declareNotFound 500 "internal error"
           (RUnstructured None)); reflexivity.
Defined.

(** C3, counterexample.  With a nil response, as [doDelete] passes it, an
    error that does not contain the expected string is reported as an
    unexpected error and sets the terminal flag. *)
Lemma substring_mismatch_terminal_on_nil_response :
  let e := declareError "already exists" in
  let a := newAssertions (Some e) (Some (OtherError "connection refused"))
             RNil in
  Error e <> "" /\
  swallowUnknown e a >>> swallowStatus e = Next a /\
  err a = Some (OtherError "connection refused") /\
  Contains "connection refused" (Error e) = false /\
  OK (standIns passingEngine) a
  = Some (false,
          {| failures :=
               [FUnexpectedError (Some (OtherError "connection refused"))];
             terminal := true; exp := Some e;
             err := Some (OtherError "connection refused"); r := RNil |}).
Proof. by repeat split. Qed.

(** C3, instance: the same error with the nil pointer that [doGet] passes
    when the call fails. *)
Lemma substring_mismatch_retryable_witness :
  let e := declareError "already exists" in
  let a := newAssertions (Some e) (Some (OtherError "connection refused"))
             (RUnstructured None) in
  exists a',
    OK (standIns passingEngine) a = Some (false, a') /\
    failures a' = [FNotIn "connection refused" "already exists"] /\
    terminal a' = false.
Proof.
  intros e a.
  apply (substring_mismatch_retryable (standIns passingEngine) e (Some (OtherError "connection refused"))
           (RUnstructured None) a (OtherError "connection refused"));
    [reflexivity|reflexivity|discriminate|discriminate|reflexivity].
Defined.

(** C6, counterexample.  A list of two items, no action error and
    [len: 2]: with an error string declared the evaluation fails, with
    the terminal flag set; with a json assertion declared it fails when
    the engine fails. *)
Lemma len_equal_but_fails :
  Z.of_nat (length (Items (listOf 2))) = 2 /\
  OK (standIns passingEngine)
    (newAssertions (Some (declareLenError 2 "already exists")) None
       (RUnstructuredList (Some (listOf 2))))
  = Some (false,
          {| failures := [FUnexpectedError None]; terminal := true;
             exp := Some (declareLenError 2 "already exists");
             err := None; r := RUnstructuredList (Some (listOf 2)) |}) /\
  exists a',
    OK (standIns failingEngine)
      (newAssertions
         (Some {| Error := ""; Len := Some 2; NotFound := false;
                  Unknown := false; Matches := VNil;
                  JSON := Some (MkJSONExpect VNil) |})
         None (RUnstructuredList (Some (listOf 2))))
    = Some (false, a').
Proof. split; [done|]. split; [done|]. by eexists. Qed.

(** C6, instance: [len: 2] against a list of three items. *)
Lemma len_check_witness :
  exists a',
    OK (standIns passingEngine)
      (newAssertions (Some (declareLen 2)) None
         (RUnstructuredList (Some (listOf 3))))
    = Some (false, a') /\
    failures a' = [FNotEqualLength 2 3] /\ terminal a' = false.
Proof.
  apply (len_check (standIns passingEngine)
           (declareLen 2) 2 (listOf 3)); [reflexivity|reflexivity|].
  discriminate.
Defined.

(** C4, counterexample.  The expected string "02" parses to 2 and the
    actual value is the int 2, yet one difference is reported: in this
    order the comparator renders the integer and compares strings.  An
    expected uint against an actual string that parses to the same number
    is reported as a difference too. *)
Lemma string_int_equal_numbers_differ :
  Atoi "02" = Some 2 /\
  collectFieldDifferences "$.n" (VString "02") (VInt KInt 2) []
  = Some [DifferentValues "$.n" (VString "02") (VInt KInt 2)] /\
  Atoi "2" = Some 2 /\
  collectFieldDifferences "$.n" (VUint KUint 2) (VString "2") []
  = Some [DifferentValues "$.n" (VUint KUint 2) (VString "2")].
Proof. by vm_compute. Qed.

(** C4, instance: expected int 2 against actual "2". *)
Lemma int_string_comparison_witness :
  intListed KInt = true /\
  collectFieldDifferences "$.n" (VInt KInt 2) (VString "2") [] = Some [].
Proof.
  split; [reflexivity|].
  apply (int_string_comparison "$.n" KInt 2 "2" []); reflexivity.
Defined.

(** C5, counterexample.  A document that holds a NaN differs from
    itself. *)
Lemma compare_nan_not_reflexive :
  compareResourceToMatchObject
    (resource {[ "x"%string := VFloat KFloat64 S754_nan ]})
    {[ "x"%string := VFloat KFloat64 S754_nan ]}
  = Some [DifferentValues "$.x" (VFloat KFloat64 S754_nan)
            (VFloat KFloat64 S754_nan)].
Proof. by vm_compute. Qed.

(** C5, instance: a document with a nested mapping, a sequence, an int64,
    a float (0.5), a boolean and a nil. *)
Lemma compare_reflexive_witness :
  let X : gmap string value :=
    {[ "kind"%string := VString "Deployment";
       "spec"%string :=
         VMap {[ "replicas"%string := VInt KInt64 2;
                 "ratio"%string := VFloat KFloat64 (S754_finite false 1 (-1));
                 "paused"%string := VBool false ]};
       "finalizers"%string := VList [VString "a"; VNil] ]} in
  nanFree (VMap X) = true /\
  compareResourceToMatchObject (resource X) X = Some [].
Proof.
  intros X.
  assert (H : nanFree (VMap X) = true) by (vm_compute; reflexivity).
  split; [exact H|]. exact (compare_reflexive X H).
Defined.

(** C8, instance: [matches] with three fields.  The first attempt gets a
    resource with none of them and records three failures; the second
    gets a resource with all three and passes; nothing is reported. *)
Lemma runGet_reports_last_attempt_witness :
  let m : gmap string value :=
    {[ "a"%string := VInt KInt 1; "b"%string := VInt KInt 2;
       "c"%string := VInt KInt 3 ]} in
  let actual : gmap string value :=
    {[ "a"%string := VInt KInt64 1; "b"%string := VInt KInt64 2;
       "c"%string := VInt KInt64 3; "d"%string := VNil ]} in
  let e := Some (declareMatches m) in
  let o1 : outcome := (None, RUnstructured (Some (resource ∅))) in
  let o2 : outcome := (None, RUnstructured (Some (resource actual))) in
  (exists a1, OK (standIns passingEngine) (newAssertions e (fst o1) (snd o1))
              = Some (false, a1) /\
              terminal a1 = false /\ length (failures a1) = 3%nat) /\
  runGet (standIns passingEngine) e None [o1; o2] = Some [].
Proof.
  intros m actual e o1 o2.
  split; [eexists; by vm_compute|].
  apply (runGet_reports_last_attempt (standIns passingEngine) e None
           (newAssertions e None RNil) [o1] [] o2 true
           (newAssertions e None (snd o2))).
  - by vm_compute.
  - repeat constructor. eexists. by vm_compute.
  - by vm_compute.
  - by left.
  - reflexivity.
Defined.

(** C10, instance: [matches: [true]], a sequence. *)
Lemma matches_neither_string_nor_map_witness :
  matchObjectFromAny (standIns passingEngine) (VList [VBool true]) = Some ∅ /\
  (forall res, compareResourceToMatchObject res ∅ = Some []) /\
  (forall e a res,
      Matches e = VList [VBool true] -> r a = RUnstructured (Some res) ->
      matchesOK (standIns passingEngine) e a = Some (true, a)).
Proof.
  apply (matches_neither_string_nor_map (standIns passingEngine)
           (VList [VBool true])); intros; discriminate.
Defined.

(** C9, instance: a json assertion on a resource, with the engine that
    sets its terminal flag.  The first three checks pass and leave the
    flag unset; [jsonOK] starts with the flag unset and sets it, and the
    result is read from that state. *)
Lemma terminal_monotonic_witness :
  let ext := standIns terminalEngine in
  let e := declareJSON (MkJSONExpect VNil) in
  let a := newAssertions (Some e) None (RUnstructured (Some (resource ∅))) in
  let a4 := foldl Fail (setTerminal a true) [FJSON "schema not found"] in
  OKstates ext a = Some (false, [a; a; a; a; a4]) /\
  OK ext a = Some (false, a4) /\
  terminal a = false /\ terminal a4 = true /\
  last [a; a; a; a; a4] = Some a4.
Proof.
  intros ext e a a4.
  assert (H : OKstates ext a = Some (false, [a; a; a; a; a4]))
    by reflexivity.
  pose proof (terminal_monotonic ext (Some e) None
                (RUnstructured (Some (resource ∅)))) as [HOK Hmono].
  split; [exact H|]. split; [exact HOK|]. split; [reflexivity|].
  split; [reflexivity|].
  exact (proj2 (proj2 (proj2 (Hmono false [a; a; a; a; a4] H))
                  4%nat a4 eq_refl eq_refl)).
Defined.

(** ** Remarks on what the statements above leave out *)

(** [jsonOK] on its own assigns the engine's flag over a flag that is
    set; [OK] never runs it in such a state. *)
Remark jsonOK_alone_resets_terminal :
  let e := declareJSON (MkJSONExpect VNil) in
  let a := {| failures := []; terminal := true; exp := Some e; err := None;
              r := RUnstructured (Some (resource ∅)) |} in
  exists a', jsonOK (standIns failingEngine) e a = Some (false, a') /\
             terminal a' = false.
Proof. eexists. by vm_compute. Qed.

(** An expected string against an actual integer whose type is not [int]
    (the API server's numbers are int64) panics in the unchecked
    [subject.(int)]. *)
Remark string_match_int64_subject_panics :
  collectFieldDifferences "$.n" (VString "2") (VInt KInt64 3) [] = None /\
  collectFieldDifferences "$.n" (VString "2") (VUint KUint 3) [] = None.
Proof. by vm_compute. Qed.

(** int16 is missing from the kinds of [typesComparable]: an expected
    int16 is not comparable with a string, nor with an int. *)
Remark int16_match_not_comparable :
  collectFieldDifferences "$.n" (VInt KInt16 2) (VString "2") []
  = Some [NonComparable "$.n" (VInt KInt16 2) (VString "2")] /\
  collectFieldDifferences "$.n" (VInt KInt16 2) (VInt KInt 2) []
  = Some [NonComparable "$.n" (VInt KInt16 2) (VInt KInt 2)].
Proof. by vm_compute. Qed.

(** An error that does contain the expected string is reported as an
    unexpected error all the same, by the last statement of [errorOK]. *)
Remark expected_error_still_unexpected :
  exists a',
    OK (standIns passingEngine)
      (newAssertions (Some (declareError "refused"))
         (Some (OtherError "connection refused")) (RUnstructured None))
    = Some (false, a') /\
    failures a' = [FUnexpectedError (Some (OtherError "connection refused"))] /\
    terminal a' = true.
Proof. eexists. by vm_compute. Qed.

(** The comparator checks the expected keys only, and stops at sequences
    of different lengths. *)
Example compare_subset :
  compareResourceToMatchObject
    (resource {[ "a"%string := VInt KInt 1; "b"%string := VInt KInt 2 ]})
    {[ "a"%string := VInt KInt 1 ]} = Some [].
Proof. by vm_compute. Qed.

Example compare_sequence_lengths :
  compareResourceToMatchObject
    (resource {[ "xs"%string := VList [VInt KInt 1] ]})
    {[ "xs"%string := VList [VInt KInt 1; VInt KInt 2] ]}
  = Some [DifferentLengths "$.xs" 2 1].
Proof. by vm_compute. Qed.

(** ** Closed instances of the properties beyond the claims *)

(** X2, instance: expected {a: 1, b: 2} against a resource without
    fields; one run visits a then b on a delta that holds a difference,
    the other visits b then a on the empty delta. *)
Lemma delta_only_grows_witness :
  let m : gmap string value :=
    {[ "a"%string := VInt KInt 1; "b"%string := VInt KInt 2 ]} in
  let d := [NotPresent "$.z"] in
  let r := Some [NotPresent "$.z"; NotPresent "$.a"; NotPresent "$.b"] in
  let r0 := Some [NotPresent "$.b"; NotPresent "$.a"] in
  collects "$" (VMap m) (VMap ∅) d r /\
  collects "$" (VMap m) (VMap ∅) [] r0 /\
  exists ds, [NotPresent "$.z"; NotPresent "$.a"; NotPresent "$.b"] = d ++ ds /\
             ds ≡ₚ [NotPresent "$.b"; NotPresent "$.a"].
Proof.
  intros m d r r0.
  assert (H1 : collects "$" (VMap m) (VMap ∅) d r).
  { apply (collects_map _ _ _ _
             [("a"%string, VInt KInt 1); ("b"%string, VInt KInt 2)]).
    - first [by vm_compute|vm_compute; apply perm_swap].
    - apply keys_missing; [reflexivity|].
      apply keys_missing; [reflexivity|]. apply keys_done. }
  assert (H2 : collects "$" (VMap m) (VMap ∅) [] r0).
  { apply (collects_map _ _ _ _
             [("b"%string, VInt KInt 2); ("a"%string, VInt KInt 1)]).
    - first [by vm_compute|vm_compute; apply perm_swap].
    - apply keys_missing; [reflexivity|].
      apply keys_missing; [reflexivity|]. apply keys_done. }
  exact (conj H1 (conj H2
           (delta_only_grows "$" (VMap m) (VMap ∅) d r r0 H1 H2))).
Defined.

(** X3, instance: expected {a: 1}; the resources {a: 1} and
    {a: 1, b: 2}. *)
Lemma compare_reads_expected_keys_only_witness :
  let m : gmap string value := {[ "a"%string := VInt KInt 1 ]} in
  let obj : gmap string value := {[ "a"%string := VInt KInt64 1 ]} in
  let obj' : gmap string value :=
    {[ "a"%string := VInt KInt64 1; "b"%string := VInt KInt64 2 ]} in
  (forall k, is_Some (m !! k) -> obj !! k = obj' !! k) /\
  compares {| Object := obj |} m (Some []) /\
  compares {| Object := obj' |} m (Some []) /\
  option_Forall2 (≡ₚ) (Some []) (Some (@nil difference)).
Proof.
  intros m obj obj'.
  assert (H : forall k, is_Some (m !! k) -> obj !! k = obj' !! k).
  { intros k [v Hk]. apply lookup_singleton_Some in Hk as [<- _].
    reflexivity. }
  assert (H1 : compares {| Object := obj |} m (Some []))
    by exact (collect_is_a_run (VMap m) "$" (VMap obj) []).
  assert (H2 : compares {| Object := obj' |} m (Some []))
    by exact (collect_is_a_run (VMap m) "$" (VMap obj') []).
  exact (conj H (conj H1 (conj H2
           (compare_reads_expected_keys_only m obj obj' _ _ H H1 H2)))).
Defined.



(** X4, instance: expected {a: 1, b: 2} against the resource {a: 1}. *)
Lemma compare_reports_missing_keys_witness :
  let m : gmap string value :=
    {[ "a"%string := VInt KInt 1; "b"%string := VInt KInt 2 ]} in
  let res := resource {[ "a"%string := VInt KInt64 1 ]} in
  compareResourceToMatchObject res m = Some [NotPresent "$.b"] /\
  NotPresent ("$." +:+ "b") ∈ [NotPresent "$.b"].
Proof.
  intros m res.
  assert (H : compareResourceToMatchObject res m = Some [NotPresent "$.b"])
    by (vm_compute; reflexivity).
  split; [exact H|].
  exact (proj1 (compare_reports_missing_keys res m _ H)
           "b"%string (VInt KInt 2) eq_refl eq_refl).
Defined.

(** X5, instance: expected {replicas: 2}, a resource with an int64. *)
Lemma compare_cannot_panic_witness :
  let m : gmap string value := {[ "replicas"%string := VInt KInt 2 ]} in
  let res := resource {[ "replicas"%string := VInt KInt64 2 ]} in
  (stringFree (VMap m) = true \/ goIntOnly (VMap (Object res)) = true) /\
  is_Some (compareResourceToMatchObject res m).
Proof.
  intros m res.
  assert (H : stringFree (VMap m) = true \/
              goIntOnly (VMap (Object res)) = true)
    by (left; vm_compute; reflexivity).
  exact (conj H (compare_cannot_panic res m H)).
Defined.

(** X7, instance: [matches: {a: 1}] against a resource without fields. *)
Lemma matches_failures_follow_differences_witness :
  let e := declareMatches {[ "a"%string := VInt KInt 1 ]} in
  let a := newAssertions (Some e) None (RUnstructured (Some (resource ∅))) in
  let a' := foldl Fail a [FMatchesNotEqual (NotPresent "$.a")] in
  matchesOK (standIns passingEngine) e a = Some (false, a') /\
  exists res matchObj ds,
    r a = RUnstructured (Some res) /\
    matchObjectFromAny (standIns passingEngine) (Matches e) = Some matchObj /\
    compareResourceToMatchObject res matchObj = Some ds /\
    ds <> [] /\
    failures a' = failures a ++ (FMatchesNotEqual <$> ds) /\
    terminal a' = terminal a /\ err a' = err a.
Proof.
  intros e a a'.
  assert (H : matchesOK (standIns passingEngine) e a = Some (false, a'))
    by (vm_compute; reflexivity).
  exact (conj H (matches_failures_follow_differences
                   (standIns passingEngine) e a a' H)).
Defined.

(** X8, instance: a json assertion on a resource, with the engine that
    sets its terminal flag. *)
Lemma json_failures_verbatim_witness :
  let ext := standIns terminalEngine in
  let e := declareJSON (MkJSONExpect VNil) in
  let a := newAssertions (Some e) None (RUnstructured (Some (resource ∅))) in
  let a' := foldl Fail (setTerminal a true) [FJSON "schema not found"] in
  jsonOK ext e a = Some (false, a') /\
  exists j b,
    JSON e = Some j /\ jaOK (jsonNew ext j b) = false /\
    failures a' = failures a ++ (FJSON <$> jaFailures (jsonNew ext j b)) /\
    terminal a' = jaTerminal (jsonNew ext j b).
Proof.
  intros ext e a a'.
  assert (H : jsonOK ext e a = Some (false, a')) by reflexivity.
  exact (conj H (json_failures_verbatim ext e a a' H)).
Defined.

(** X9, instance: a json assertion on a list of two resources. *)
Lemma json_list_gets_no_bytes_witness :
  let ext := standIns failingEngine in
  let j := MkJSONExpect VNil in
  let e := declareJSON j in
  let a := newAssertions (Some e) None (RUnstructuredList (Some (listOf 2))) in
  verdict (jsonOK ext e a) = Some (false, [FJSON "path not found"], false).
Proof.
  intros ext j e a.
  exact (json_list_gets_no_bytes ext e j a (listOf 2) eq_refl eq_refl).
Defined.

(** X10, instance: [matches: {a: 1}] against a list of two resources. *)
Lemma matches_skips_lists_witness :
  let e := declareMatches {[ "a"%string := VInt KInt 1 ]} in
  let a := newAssertions (Some e) None (RUnstructuredList (Some (listOf 2))) in
  matchesOK (standIns passingEngine) e a = Some (true, a) /\
  (true, a) = (true, a).
Proof.
  intros e a.
  assert (H : matchesOK (standIns passingEngine) e a = Some (true, a))
    by reflexivity.
  exact (conj H (matches_skips_lists (standIns passingEngine) e a
                   (Some (listOf 2)) (true, a) eq_refl H)).
Defined.

(** X11, instance: [len: 2] against a list of three resources. *)
Lemma OK_failures_from_one_check_witness :
  let a' := Fail (newAssertions (Some (declareLen 2)) None
                    (RUnstructuredList (Some (listOf 3))))
              (FNotEqualLength 2 3) in
  OK (standIns passingEngine)
    (newAssertions (Some (declareLen 2)) None
       (RUnstructuredList (Some (listOf 3)))) = Some (false, a') /\
  exists c,
    Forall (fun f => failureCheck f = c) (failures a') /\
    (c = ByError \/ c = ByLen -> length (failures a') = 1%nat) /\
    (c = ByMatches -> failures a' <> []) /\
    (terminal a' = true -> c = ByError \/ c = ByJSON).
Proof.
  intros a'.
  assert (H : OK (standIns passingEngine)
                (newAssertions (Some (declareLen 2)) None
                   (RUnstructuredList (Some (listOf 3))))
              = Some (false, a')) by reflexivity.
  exact (conj H (OK_failures_from_one_check (standIns passingEngine)
                   (Some (declareLen 2)) None
                   (RUnstructuredList (Some (listOf 3))) a' H)).
Defined.

(** X12, instance: the engine that fails with one failure; [len: 2]
    against a list of two resources. *)
Lemma OK_pass_iff_no_failure_witness :
  let ext := standIns failingEngine in
  let a := newAssertions (Some (declareLen 2)) None
             (RUnstructuredList (Some (listOf 2))) in
  (forall j b, jaOK (jsonNew ext j b) = false ->
               jaFailures (jsonNew ext j b) <> []) /\
  OK ext a = Some (true, a) /\
  (true = true <-> failures a = []).
Proof.
  intros ext a.
  assert (H1 : forall j b, jaOK (jsonNew ext j b) = false ->
                           jaFailures (jsonNew ext j b) <> [])
    by (intros j b _; discriminate).
  assert (H2 : OK ext a = Some (true, a)) by reflexivity.
  exact (conj H1 (conj H2
           (OK_pass_iff_no_failure ext (Some (declareLen 2)) None
              (RUnstructuredList (Some (listOf 2))) true a H1 H2))).
Defined.

(** X14, instance: [error: already exists] and no expectation at all are
    the same to a delete that fails. *)
Lemma delete_reads_unknown_and_absence_witness :
  let ext := standIns passingEngine in
  let e := declareError "already exists" in
  let er := Some (OtherError "connection refused") in
  doDelete ext (Some e) er = doDelete ext (Some declareNothing) er /\
  doDeleteCollection ext (Some e) er
  = doDeleteCollection ext (Some declareNothing) er /\
  is_Some (doDelete ext (Some e) er).
Proof.
  intros ext e er.
  exact (delete_reads_unknown_and_absence ext e declareNothing er
           eq_refl eq_refl).
Defined.



(** X17, instance: absence expected and a status error with code 500. *)
Lemma notFoundOK_decides_witness :
  let a := newAssertions (Some declareNotFound)
             (Some (StatusError 500 "internal error")) (RUnstructured None) in
  let a' := Fail a (FExpectedNotFound "got status code 500") in
  notFoundOK declareNotFound a = Some (false, a') /\
  terminal a' = terminal a /\ err a' = err a /\
  (false = false <->
   expectsNotFound declareNotFound = true /\
   ((exists code msg, err a = Some (StatusError code msg) /\
                      code <> StatusNotFound) \/
    ((forall code msg, err a <> Some (StatusError code msg)) /\
     exists l, r a = RUnstructuredList (Some l) /\ Items l <> []))).
Proof.
  intros a a'.
  assert (H : notFoundOK declareNotFound a = Some (false, a'))
    by (vm_compute; reflexivity).
  exact (conj H (notFoundOK_decides declareNotFound a a' false H)).
Defined.

(** X18, instance: pods/nginx. *)
Lemma splitKindName_round_trip_witness :
  Contains "pods" "/" = false /\
  splitKindName "pods/nginx" = ("pods", "nginx")%string /\
  splitKindName "pods" = ("pods", EmptyString)%string.
Proof.
  assert (H : Contains "pods" "/" = false) by reflexivity.
  split; [exact H|].
  destruct (splitKindName_round_trip "pods" "nginx" H) as (H1 & H2 & _).
  exact (conj H1 H2).
Defined.

(** X20, instance: a kind that the server does not know, and no
    [unknown: true]. *)
Lemma runGet_prerequisite_short_circuit_witness :
  let ext := standIns passingEngine in
  let e := Some declareNothing in
  let er := Some (ResourceUnknown "resource unknown: Foo") in
  let a := setTerminal
             (Fail (newAssertions e er RNil)
                (FError (ResourceUnknown "resource unknown: Foo"))) true in
  OK ext (newAssertions e er RNil) = Some (false, a) /\
  runGet ext e er [(None, RUnstructured None)] = Some (failures a) /\
  exists f, failures a = [f] /\ failureCheck f = ByError.
Proof.
  intros ext e er a.
  assert (H : OK ext (newAssertions e er RNil) = Some (false, a))
    by reflexivity.
  exact (conj H (runGet_prerequisite_short_circuit ext e er a
                   [(None, RUnstructured None)] H)).
Defined.

(** X21, instance: [len: 1]; a list of none, then a list of one, then a
    tick that is not evaluated. *)
Lemma pollLoop_stops_at_decisive_witness :
  let ext := standIns passingEngine in
  let e := Some (declareLen 1) in
  let o1 : outcome := (None, RUnstructuredList (Some (listOf 0))) in
  let o2 : outcome := (None, RUnstructuredList (Some (listOf 1))) in
  let o3 : outcome := (Some (OtherError "timeout"), RUnstructuredList None) in
  let st := {| attempts := 0; success := false;
               current := newAssertions e None RNil |} in
  pollLoop ext e ([o1] ++ o2 :: [o3]) st = pollLoop ext e ([o1] ++ [o2]) st /\
  exists st', pollLoop ext e ([o1] ++ o2 :: [o3]) st = Some st' /\
              attempts st' = (attempts st + length [o1] + 1)%nat /\
              current st' = newAssertions e None (snd o2).
Proof.
  intros ext e o1 o2 o3 st.
  apply (pollLoop_stops_at_decisive ext e [o1] [o3] o2 true
           (newAssertions e None (snd o2)) st).
  - repeat constructor. eexists. by vm_compute.
  - reflexivity.
  - reflexivity.
Defined.


(** X12, the premise is needed: with an engine that fails and names no
    failure, the only attempt of [runGet] fails and nothing is
    reported. *)
Remark silent_engine_failure_unreported :
  let ext := standIns silentEngine in
  let e := Some (declareJSON (MkJSONExpect VNil)) in
  let o : outcome := (None, RUnstructured (Some (resource ∅))) in
  (exists a, OK ext (newAssertions e (fst o) (snd o)) = Some (false, a)) /\
  runGet ext e None [o] = Some [].
Proof.
  split; [by eexists|reflexivity].
Qed.

(** X23, instance: [delete: pods/] with a trailing slash deletes the
    collection of pods, and the answer a single delete would give is not
    looked at; [delete: foos/x] for a kind that does not resolve deletes
    nothing. *)
Lemma runDelete_kind_alone_deletes_collection_witness :
  let ext := standIns passingEngine in
  let e := Some declareNotFound in
  let boom := Some (OtherError "boom") in
  let gone := Some (StatusError 404 "pods not found") in
  let er := ResourceUnknown "resource unknown: Foo" in
  Contains "pods" "/" = false /\
  runDeleteSubject ext e "pods/" None boom gone
  = doDeleteCollection ext e boom /\
  runDeleteSubject ext e "foos/x" (Some er) boom gone = Some [FError er].
Proof.
  intros ext e boom gone er.
  assert (H : Contains "pods" "/" = false) by reflexivity.
  pose proof (runDelete_kind_alone_deletes_collection
                ext e "pods" "nginx" boom gone H)
    as (_ & H2 & _ & _ & H5).
  exact (conj H (conj H2 (H5 "foos/x"%string
                            "resource unknown: Foo"%string))).
Defined.

(** X24, instance: a manifest of four objects under [notfound: true];
    the kind of the third does not resolve. *)
Lemma runDelete_manifest_reports_each_delete_witness :
  let ext := standIns passingEngine in
  let e := Some declareNotFound in
  let gone := Some (StatusError 404 "pods not found") in
  let er := ResourceUnknown "resource unknown: Foo" in
  let pre : list (option error * option error) :=
    [(None, gone); (None, None)] in
  Forall (fun step : option error * option error => fst step = None) pre /\
  runDeleteObjects ext e (pre ++ (Some er, None) :: [(None, gone)])
  = (.++ [FError er]) <$> runDeleteObjects ext e pre.
Proof.
  intros ext e gone er pre.
  assert (Hpre : Forall (fun step : option error * option error =>
                           fst step = None) pre)
    by (repeat constructor).
  exact (conj Hpre
           (proj2 (proj2 (proj2
              (runDelete_manifest_reports_each_delete ext e pre Hpre)))
              "resource unknown: Foo"%string None [(None, gone)])).
Defined.

(** X6, instance: the expectation of the comment on [Expect.Matches],
    status.readyReplicas: 2, against a deployment that also has a kind
    and status.replicas. *)
Lemma no_difference_iff_included_witness :
  let m := VMap {[ "status"%string :=
                     VMap {[ "readyReplicas"%string := VInt KInt 2 ]} ]} in
  let s := VMap {[ "kind"%string := VString "Deployment";
                   "status"%string :=
                     VMap {[ "readyReplicas"%string := VInt KInt64 2;
                             "replicas"%string := VInt KInt64 3 ]} ]} in
  plain m = true /\ plain s = true /\
  collectFieldDifferences "$" m s [] = Some [] /\
  included m s.
Proof.
  intros m s.
  assert (H1 : plain m = true) by reflexivity.
  assert (H2 : plain s = true) by reflexivity.
  assert (H3 : collectFieldDifferences "$" m s [] = Some [])
    by reflexivity.
  exact (conj H1 (conj H2 (conj H3
           (proj1 (no_difference_iff_included "$" m s [] H1 H2) H3)))).
Defined.
